(** * migen.fhdl.structure: the FHDL intermediate representation

    A shallow embedding of [migen/fhdl/structure.py] and the properties of
    its width inference, slicing sugar, statement constructors, signal
    allocation and [Fragment] algebra.

    Python integers are [Z]; a Python exception is the [Raise] branch of
    [result]; objects that the code mutates or compares by identity live in
    an explicit store. *)

From stdpp Require Import gmap strings list fin_maps.
From Stdlib Require Import ZArith Lia Sorted.

Set Warnings "-register-all".
Local Open Scope Z_scope.

(** ** Exceptions *)

Inductive exn :=
| KeyError
| ValueError
| TypeError
| AssertionError
| AttributeError
| OverflowError
| NoSuchObject.     (* a reference to no object: not a state Python reaches *)

Inductive result (A : Type) :=
| Ok (a : A)
| Raise (e : exn).
Arguments Ok {A} a.
Arguments Raise {A} e.

Definition rbind {A B} (r : result A) (k : A -> result B) : result B :=
  match r with
  | Ok a => k a
  | Raise e => Raise e
  end.

#[global] Instance result_bind : MBind result :=
  fun A B k r => rbind r k.
#[global] Instance result_ret : MRet result := @Ok.

(** ** Bit-vector types *)

Record BV := mkBV { width : Z; signed : bool }.

(** [BV.__init__(width=1, signed=False)] *)
Definition BV_default : BV := mkBV 1 false.

(** [BV.__eq__] *)
Definition BV_eq (a b : BV) : bool :=
  (width a =? width b) && Bool.eqb (signed a) (signed b).

(** [Constant.__eq__] between the constants [(n, bv)] and [(n', bv')] *)
Definition Constant_eq (n : Z) (bv : BV) (n' : Z) (bv' : BV) : bool :=
  BV_eq bv bv' && (n =? n').

(** ** Power-of-two logarithm *)

(** The [while] loop of [log2_int] from the values [l] and [r], with
    [fuel] bounding the number of turns; [None] when the bound is reached. *)
Fixpoint log2_int_loop (fuel : nat) (n l r : Z) : option (Z * Z) :=
  if l <? n then
    match fuel with
    | O => None
    | S fuel' => log2_int_loop fuel' n (l * 2) (r + 1)
    end
  else Some (l, r).

(** [log2_int(n)] *)
Definition log2_int (fuel : nat) (n : Z) : option (result Z) :=
  match log2_int_loop fuel n 1 0 with
  | Some (l, r) => Some (if l =? n then Ok r else Raise ValueError)
  | None => None
  end.

(** ** Conversion of a Python int to a C double

    [math.log] receives a Python int and turns it into a double first.  The
    conversion keeps 53 significant bits and rounds to nearest, ties to
    even; an int too large for a double is split into a 53-bit mantissa and
    an exponent by the same rounding.  A double that is an integer is
    represented by that integer. *)

Definition DBL_MANT_DIG : Z := 53.

Definition int_to_double (n : Z) : Z :=
  let e := Z.log2 n + 1 in              (* n.bit_length() *)
  if e <=? DBL_MANT_DIG then n
  else
    let sh := e - DBL_MANT_DIG in
    let q := Z.shiftr n sh in
    let r := Z.land n (Z.ones sh) in
    let half := Z.shiftl 1 (sh - 1) in
    let q' := if r <? half then q
              else if half <? r then q + 1
              else if Z.even q then q else q + 1 in
    Z.shiftl q' sh.

(** ** Expressions *)

(** A [Signal] object.  [sig_id] stands for [id(self)], the identity the
    class hashes by; [sig_order] is the creation-order index. *)
Record signal (backtrace : Type) := mkSignal {
  sig_id : positive;
  sig_bv : BV;
  sig_variable : bool;
  sig_reset : Z * BV;                    (* Constant(reset, bv) *)
  sig_name_override : option string;
  sig_backtrace : backtrace;
  sig_order : Z
}.
Arguments mkSignal {backtrace}.
Arguments sig_id {backtrace}.
Arguments sig_bv {backtrace}.
Arguments sig_variable {backtrace}.
Arguments sig_reset {backtrace}.
Arguments sig_name_override {backtrace}.
Arguments sig_backtrace {backtrace}.
Arguments sig_order {backtrace}.

Section Structure.

(** The two collaborators outside this module.

    [ceil_log2_double x] is [int(math.ceil(math.log(x, 2)))] for the double
    [x]: the C library's logarithm, a division and a rounding up.  Nothing
    is assumed about it.

    [trace_back name] is [tracer.trace_back(name)], the naming helper. *)
Variable ceil_log2_double : Z -> Z.
Variable backtrace : Type.
Variable trace_back : option string -> backtrace.

Inductive Value :=
| Constant (n : Z) (bv : BV)
| Signal (s : signal backtrace)
| _Operator (op : string) (operands : list Value)
| _Slice (value : Value) (start stop : Z)
| Cat (l : list Value)
| Replicate (v : Value) (n : Z)
| _ArrayProxy (choices : list Value) (key : Value).

(** What host code passes where an expression is expected: a raw int or an
    expression. *)
Inductive operand :=
| PyInt (n : Z)
| PyValue (v : Value).

(** [sys.maxsize] of a 64-bit interpreter, the bound of [len()]. *)
Definition PY_SSIZE_T_MAX : Z := 2 ^ 63 - 1.

(** The builtin [len()] around a [__len__] that returned [w]. *)
Definition builtin_len (w : Z) : result Z :=
  if w <? 0 then Raise ValueError
  else if PY_SSIZE_T_MAX <? w then Raise OverflowError
  else Ok w.

(** [len(e)]: only [Constant] and [Signal] define [__len__]. *)
Definition len (e : Value) : result Z :=
  match e with
  | Constant _ bv => builtin_len (width bv)
  | Signal s => builtin_len (width (sig_bv s))
  | _ => Raise TypeError
  end.

(** The [else] branch of [bits_for] for [n > 0]. *)
Definition bits_for_log (n : Z) : Z :=
  ceil_log2_double (int_to_double (n + 1)).

(** [bits_for] on a raw int.  The source recurses once, from [n < 0] to
    [-n > 0]; the call is unfolded here and [bits_for_int_neg] below gives
    the equation of the source back. *)
Definition bits_for_int (n : Z) : Z :=
  if n <? 0 then
    (if - n =? 0 then 1 else bits_for_log (- n)) + 1
  else if n =? 0 then 1
  else bits_for_log n.

(** [bits_for(n)] *)
Definition bits_for (n : operand) : result Z :=
  match n with
  | PyValue (Constant c bv) => len (Constant c bv)
  | PyValue _ => Raise TypeError           (* [-n] on an expression *)
  | PyInt n => Ok (bits_for_int n)
  end.

(** [Constant.__init__(n, bv=None)] *)
Definition Constant_init (n : Z) (bv : option BV) : Value :=
  match bv with
  | Some bv => Constant n bv
  | None => Constant n (mkBV (bits_for_int n) (n <? 0))
  end.

(** [_cst(x)] *)
Definition _cst (x : operand) : Value :=
  match x with
  | PyInt n => Constant_init n None
  | PyValue v => v
  end.

(** [_Operator.__init__], [Cat.__init__], [Replicate.__init__] *)
Definition Operator_init (op : string) (operands : list operand) : Value :=
  _Operator op (map _cst operands).

Definition Cat_init (args : list operand) : Value :=
  Cat (map _cst args).

Definition Replicate_init (v : operand) (n : Z) : Value :=
  Replicate (_cst v) n.

(** *** Indexing *)

(** A Python [slice] object with int-or-None fields. *)
Record pyslice := mkSlice {
  sl_start : option Z;
  sl_stop : option Z;
  sl_step : option Z
}.

Inductive index :=
| IInt (i : Z)
| ISlice (s : pyslice)
| IOther.

(** [x or d] for an int-or-None [x]: [None] and [0] are falsy. *)
Definition py_or (x : option Z) (d : Z) : Z :=
  match x with
  | Some v => if v =? 0 then d else v
  | None => d
  end.

Definition truthy (x : option Z) : option Z :=
  match x with
  | Some v => if v =? 0 then None else Some v
  | None => None
  end.

(** [Value.__getitem__(self, key)] *)
Definition Value_getitem (self : Value) (key : index) : result Value :=
  match key with
  | IInt i => Ok (_Slice self i (i + 1))
  | ISlice s =>
      let start := py_or (sl_start s) 0 in
      stop ← match truthy (sl_stop s) with
               | Some b => Ok b
               | None => len self
               end;
      w ← len self;
      let stop := if w <? stop then w else stop in
      match sl_step s with
      | Some _ => Raise KeyError
      | None => Ok (_Slice self start stop)
      end
  | IOther => Raise KeyError
  end.

(** [e[key]] with the override of [_ArrayProxy.__getitem__]. *)
Fixpoint getitem (e : Value) (key : index) : result Value :=
  match e with
  | _ArrayProxy choices k =>
      cs ← (fix each (l : list Value) : result (list Value) :=
                match l with
                | [] => Ok []
                | c :: l' =>
                    c' ← getitem c key;
                    r ← each l';
                    Ok (c' :: r)
                end) choices;
      Ok (_ArrayProxy cs k)
  | _ => Value_getitem e key
  end.

(** [Value.eq(self, r)], that is [_Assign.__init__(l, r)], is [Assign_init]
    below. *)

(** ** Statements *)

Inductive Stmt :=
| _Assign (l r : Value)
| If (cond : Value) (t f : list Stmt)
| Case (test : Value) (cases : list (Value * list Stmt))
       (default : list Stmt).

Definition Assign_init (l : Value) (r : operand) : Stmt :=
  _Assign l (_cst r).

(** [If.__init__(cond, *t)] *)
Definition If_init (cond : Value) (t : list Stmt) : Stmt :=
  If cond t [].

(** [_insert_else(obj, clause)].  The loop walks down the [f] slots; the
    assignment at its end rebuilds the path to the node it stopped at.
    A statement is a value here, so the chain is finite; a node whose
    false branch leads back to itself, on which the loop of the source
    goes on for ever, is no value of [Stmt]. *)
Fixpoint _insert_else (obj : Stmt) (clause : list Stmt) : result Stmt :=
  match obj with
  | If cond t f =>
      match f with
      | [] => Ok (If cond t clause)
      | [o] =>
          match o with
          | If _ _ _ =>
              o' ← _insert_else o clause;
              Ok (If cond t [o'])
          | _ => Raise AssertionError     (* assert(isinstance(o.f[0], If)) *)
          end
      | _ :: _ :: _ => Raise AssertionError (* assert(len(o.f) == 1) *)
      end
  | _ => Raise AttributeError
  end.

(** [If.Else(self, *f)] and [If.Elif(self, cond, *t)] *)
Definition Else (self : Stmt) (f : list Stmt) : result Stmt :=
  _insert_else self f.

Definition Elif (self : Stmt) (cond : Value) (t : list Stmt) : result Stmt :=
  _insert_else self [If_init cond t].

(** The first element of an arm of [Case]: an instance of [Default] or a
    value to match. *)
Inductive arm_head :=
| Default
| Match (v : Value).

Definition arm : Type := arm_head * list Stmt.  (* c[0], list(c[1:]) *)

Definition is_Default (c : arm) : bool :=
  match fst c with
  | Default => true
  | Match _ => false
  end.

(** The comprehension that builds [self.cases]. *)
Fixpoint Case_cases (cases : list arm) : list (Value * list Stmt) :=
  match cases with
  | [] => []
  | (Default, _) :: cs => Case_cases cs
  | (Match v, b) :: cs => (v, b) :: Case_cases cs
  end.

(** The loop that sets [self.default], from the value [d] it has so far. *)
Fixpoint Case_default (cases : list arm) (d : option (list Stmt))
  : result (option (list Stmt)) :=
  match cases with
  | [] => Ok d
  | c :: cs =>
      if is_Default c then
        match d with
        | Some _ => Raise ValueError
        | None => Case_default cs (Some (snd c))
        end
      else Case_default cs d
  end.

(** [Case.__init__(test, *cases)] *)
Definition Case_init (test : Value) (cases : list arm) : result Stmt :=
  let cs := Case_cases cases in
  d ← Case_default cases None;
  Ok (Case test cs (match d with Some b => b | None => [] end)).

(** An arm that is not the default one, as host code writes it. *)
Definition match_arm (c : Value * list Stmt) : arm :=
  (Match (fst c), snd c).

(** The conditional chain with the given non-terminal links, each holding
    the next node as the single element of its [f], down to [last]. *)
Fixpoint chain (links : list (Value * list Stmt)) (last : Stmt) : Stmt :=
  match links with
  | [] => last
  | (cond, t) :: links' => If cond t [chain links' last]
  end.

(** A false branch that holds statements and is not a link of a chain. *)
Definition filled (f : list Stmt) : bool :=
  match f with
  | [] => false
  | [If _ _ _] => false
  | _ => true
  end.

(** ** Signal construction

    The interpreter state a constructor sees: the next free object identity
    and the class attribute [Signal._counter]. *)

Record world := mkWorld {
  next_id : positive;
  Signal__counter : Z
}.

(** [Signal.__init__(bv, name, variable, reset, name_override)] *)
Definition Signal_init (bv : BV) (name : option string) (variable : bool)
    (reset : Z) (name_override : option string) (w : world)
  : signal backtrace * world :=
  let s := {| sig_id := next_id w;
              sig_bv := bv;
              sig_variable := variable;
              sig_reset := (reset, bv);
              sig_name_override := name_override;
              sig_backtrace := trace_back name;
              sig_order := Signal__counter w |} in
  (s, {| next_id := Pos.succ (next_id w);
         Signal__counter := Signal__counter w + 1 |}).

(** The second argument of [Instance._IO.__init__]. *)
Inductive signal_or_bv :=
| GivenSignal (s : signal backtrace)
| GivenBV (bv : BV)
| GivenOther.

(** [Instance._IO.__init__(name, signal_or_bv)]: the [name] and the
    [signal] of the port object. *)
Definition IO_init (name : string) (x : signal_or_bv) (w : world)
  : result (string * signal backtrace) * world :=
  match x with
  | GivenSignal s => (Ok (name, s), w)
  | GivenBV bv =>
      let '(s, w') := Signal_init bv (Some name) false 0 None w in
      (Ok (name, s), w')
  | GivenOther => (Raise TypeError, w)
  end.

(** [ClockDomain.__init__(n1, n2=None)]: the pair [(clk, rst)]. *)
Definition ClockDomain_init (n1 : string) (n2 : option string) (w : world)
  : (signal backtrace * signal backtrace) * world :=
  let '(n_clk, n_rst) :=
    match n2 with
    | None => (n1 +:+ "_clk", n1 +:+ "_rst")
    | Some n2 => (n1, n2)
    end in
  let '(clk, w1) := Signal_init BV_default None false 0 (Some n_clk) w in
  let '(rst, w2) := Signal_init BV_default None false 0 (Some n_rst) w1 in
  ((clk, rst), w2).

(** Every way this module creates a [Signal]. *)
Inductive construct :=
| NewSignal (bv : BV) (name : option string) (variable : bool) (reset : Z)
            (name_override : option string)
| NewIO (name : string) (x : signal_or_bv)
| NewClockDomain (n1 : string) (n2 : option string).

(** What such a call returns to its caller. *)
Inductive constructed :=
| ASignal (s : signal backtrace)
| AnIO (name : string) (s : signal backtrace)
| AClockDomain (clk rst : signal backtrace).

(** One constructor call: the object it returns, or the exception. *)
Definition construct_call (c : construct) (w : world)
  : result constructed * world :=
  match c with
  | NewSignal bv name variable reset name_override =>
      let '(s, w') := Signal_init bv name variable reset name_override w in
      (Ok (ASignal s), w')
  | NewIO name x =>
      let '(r, w') := IO_init name x w in
      (match r with
       | Ok (n, s) => Ok (AnIO n s)
       | Raise e => Raise e
       end, w')
  | NewClockDomain n1 n2 =>
      let '((clk, rst), w') := ClockDomain_init n1 n2 w in
      (Ok (AClockDomain clk rst), w')
  end.

(** A run of constructor calls, each in the state the previous one left:
    what every call returned, in call order. *)
Fixpoint construct_run (p : list construct) (w : world)
  : list (result constructed) * world :=
  match p with
  | [] => ([], w)
  | c :: p' =>
      let '(r, w1) := construct_call c w in
      let '(rs, w2) := construct_run p' w1 in
      (r :: rs, w2)
  end.

End Structure.

Arguments Constant {backtrace}.
Arguments Signal {backtrace}.
Arguments _Operator {backtrace}.
Arguments _Slice {backtrace}.
Arguments Cat {backtrace}.
Arguments Replicate {backtrace}.
Arguments _ArrayProxy {backtrace}.
Arguments PyInt {backtrace}.
Arguments PyValue {backtrace}.
Arguments len {backtrace}.
Arguments Value_getitem {backtrace}.
Arguments getitem {backtrace}.
Arguments _Assign {backtrace}.
Arguments If {backtrace}.
Arguments Case {backtrace}.
Arguments If_init {backtrace}.
Arguments _insert_else {backtrace}.
Arguments Else {backtrace}.
Arguments Elif {backtrace}.
Arguments Default {backtrace}.
Arguments Match {backtrace}.
Arguments is_Default {backtrace}.
Arguments Case_cases {backtrace}.
Arguments Case_default {backtrace}.
Arguments Case_init {backtrace}.
Arguments match_arm {backtrace}.
Arguments chain {backtrace}.
Arguments filled {backtrace}.
Arguments GivenSignal {backtrace}.
Arguments GivenBV {backtrace}.
Arguments GivenOther {backtrace}.
Arguments NewSignal {backtrace}.
Arguments NewIO {backtrace}.
Arguments NewClockDomain {backtrace}.
Arguments Signal_init {backtrace}.
Arguments IO_init {backtrace}.
Arguments ClockDomain_init {backtrace}.
Arguments ASignal {backtrace}.
Arguments AnIO {backtrace}.
Arguments AClockDomain {backtrace}.
Arguments construct_call {backtrace}.
Arguments construct_run {backtrace}.
Arguments bits_for ceil_log2_double {backtrace}.
Arguments Constant_init ceil_log2_double {backtrace}.
Arguments _cst ceil_log2_double {backtrace}.
Arguments Operator_init ceil_log2_double {backtrace}.
Arguments Cat_init ceil_log2_double {backtrace}.
Arguments Replicate_init ceil_log2_double {backtrace}.
Arguments Assign_init ceil_log2_double {backtrace}.

(** ** The object store

    Lists, dicts, clock/reset bindings and memory ports are mutable objects
    that several owners may hold, so a [Fragment] and what it refers to live
    in a store of objects addressed by identity. *)

Definition loc := positive.
Bind Scope positive_scope with loc.

Inductive io_kind := Input | Output | InOut.
Inductive cr_kind := ClockPort | ResetPort.

Record MemoryPort := mkMemoryPort {
  adr : loc;
  dat_r : loc;
  we : option loc;
  dat_w : option loc;
  async_read : bool;
  re : option loc;
  we_granularity : Z;
  mode : Z;                  (* READ_FIRST, WRITE_FIRST, NO_CHANGE = 0, 1, 2 *)
  clock_domain : string
}.

Record Fragment := mkFragment {
  comb : loc;
  sync : loc;
  instances : loc;
  memories : loc;
  sim : loc
}.

Inductive obj :=
| OList (xs : list loc)
| ODict (factory : bool) (m : gmap string loc)
      (* a [dict], or a [defaultdict(list)] when [factory] is set *)
| OIO (k : io_kind) (name : string) (signal : loc)
| OParameter (name : string) (value : loc)
| OCR (k : cr_kind) (name_inst : string) (domain : string)
| OInstance (of_ name_override : string) (items : list loc)
| OMemoryPort (p : MemoryPort)
| OMemory (w d : Z) (ports : list loc) (init : option loc)
| OFragment (f : Fragment)
| OOpaque.                   (* a statement, a signal, a simulation hook *)

Abbreviation heap := (gmap loc obj).

(** Computations on the store.  An exception leaves the store as it is at
    the point of the [raise]. *)
Definition M (A : Type) : Type := heap -> result A * heap.

Definition ret {A} (a : A) : M A := fun h => (Ok a, h).
Definition raise {A} (e : exn) : M A := fun h => (Raise e, h).
Definition bind {A B} (m : M A) (k : A -> M B) : M B :=
  fun h =>
    match m h with
    | (Ok a, h') => k a h'
    | (Raise e, h') => (Raise e, h')
    end.

#[global] Instance M_bind : MBind M := fun A B k m => bind m k.
#[global] Instance M_ret : MRet M := @ret.

Definition alloc (o : obj) : M loc :=
  fun h => let l := fresh (dom h) in (Ok l, <[l:=o]> h).

Definition load (l : loc) : M obj :=
  fun h =>
    match h !! l with
    | Some o => (Ok o, h)
    | None => (Raise NoSuchObject, h)
    end.

Definition store (l : loc) (o : obj) : M unit :=
  fun h => (Ok tt, <[l:=o]> h).

(** [for x in l: body(x)] *)
Fixpoint for_each {A} (l : list A) (body : A -> M unit) : M unit :=
  match l with
  | [] => ret tt
  | x :: l' => body x;; for_each l' body
  end.

(** *** Lists and dicts *)

Definition get_list (l : loc) : M (list loc) :=
  o ← load l;
  match o with
  | OList xs => ret xs
  | _ => raise TypeError
  end.

Definition get_dict (d : loc) : M (bool * gmap string loc) :=
  o ← load d;
  match o with
  | ODict fac m => ret (fac, m)
  | _ => raise TypeError
  end.

(** [v[:]] *)
Definition list_copy (v : loc) : M loc :=
  xs ← get_list v;
  alloc (OList xs).

(** [a + b] *)
Definition list_add (a b : loc) : M loc :=
  xs ← get_list a;
  ys ← get_list b;
  alloc (OList (xs ++ ys)).

(** [t.extend(v)] *)
Definition list_extend (t v : loc) : M unit :=
  xs ← get_list t;
  ys ← get_list v;
  store t (OList (xs ++ ys)).

(** [d[k]]; a [defaultdict(list)] fills a missing key with a new list. *)
Definition dict_getitem (d : loc) (k : string) : M loc :=
  '(fac, m) ← get_dict d;
  match m !! k with
  | Some v => ret v
  | None =>
      if fac : bool then
        v ← alloc (OList []);
        store d (ODict fac (<[k:=v]> m));;
        ret v
      else raise KeyError
  end.

(** [d[k] = v] *)
Definition dict_setitem (d : loc) (k : string) (v : loc) : M unit :=
  '(fac, m) ← get_dict d;
  store d (ODict fac (<[k:=v]> m)).

(** [del d[k]] *)
Definition dict_delitem (d : loc) (k : string) : M unit :=
  '(fac, m) ← get_dict d;
  match m !! k with
  | Some _ => store d (ODict fac (delete k m))
  | None => raise KeyError
  end.

(** [d.items()], read when the loop over it starts.  Python yields the
    entries in insertion order, [map_to_list] in an order of its own; the
    loops of [__add__] are proved below for every order without repeated
    keys ([copy_loop], [extend_loop]). *)
Definition dict_items (d : loc) : M (list (string * loc)) :=
  '(_, m) ← get_dict d;
  ret (map_to_list m).

(** *** Attribute access *)

Definition get_fragment (l : loc) : M Fragment :=
  o ← load l;
  match o with
  | OFragment f => ret f
  | _ => raise AttributeError
  end.

(** [inst.items] *)
Definition get_items (inst : loc) : M (list loc) :=
  o ← load inst;
  match o with
  | OInstance _ _ items => ret items
  | _ => raise AttributeError
  end.

(** [mem.ports] *)
Definition get_ports (mem : loc) : M (list loc) :=
  o ← load mem;
  match o with
  | OMemory _ _ ports _ => ret ports
  | _ => raise AttributeError
  end.

(** ** Instance *)

(** [Instance.__init__(of, *items, name="")] *)
Definition Instance_init (of_ : string) (items : list loc) (name : string)
  : M loc :=
  alloc (OInstance of_ (if decide (name = "") then of_ else name) items).

(** The loop of [get_io]; falling off its end returns [None]. *)
Fixpoint get_io_scan (items : list loc) (name : string) : M (option loc) :=
  match items with
  | [] => ret None
  | item :: items' =>
      o ← load item;
      match o with
      | OIO _ n signal =>
          if decide (n = name) then ret (Some signal)
          else get_io_scan items' name
      | _ => get_io_scan items' name
      end
  end.

(** [Instance.get_io(self, name)] *)
Definition get_io (self : loc) (name : string) : M (option loc) :=
  items ← get_items self;
  get_io_scan items name.

(** ** Fragment *)

Definition or_new (x : option loc) (o : obj) : M loc :=
  match x with
  | Some l => ret l
  | None => alloc o
  end.

(** [Fragment.__init__(comb, sync, instances, memories, sim)] *)
Definition Fragment_init (comb sync instances memories sim : option loc)
  : M loc :=
  comb ← or_new comb (OList []);
  sync ← or_new sync (ODict false ∅);
  instances ← or_new instances (OList []);
  memories ← or_new memories (OList []);
  sim ← or_new sim (OList []);
  o ← load sync;
  sync ← match o with
          | OList _ => alloc (ODict false {[ "sys" := sync ]})
          | _ => ret sync
          end;
  alloc (OFragment (mkFragment comb sync instances memories sim)).

(** The body of the first loop of [__add__]: [newsync[k] = v[:]] *)
Definition copy_entry (newsync : loc) (kv : string * loc) : M unit :=
  c ← list_copy (snd kv);
  dict_setitem newsync (fst kv) c.

(** The body of the second loop: [newsync[k].extend(v)] *)
Definition extend_entry (newsync : loc) (kv : string * loc) : M unit :=
  t ← dict_getitem newsync (fst kv);
  list_extend t (snd kv).

(** [Fragment.__add__(self, other)] *)
Definition Fragment_add (self other : loc) : M loc :=
  newsync ← alloc (ODict true ∅);
  f1 ← get_fragment self;
  items1 ← dict_items (sync f1);
  for_each items1 (copy_entry newsync);;
  f2 ← get_fragment other;
  items2 ← dict_items (sync f2);
  for_each items2 (extend_entry newsync);;
  comb' ← list_add (comb f1) (comb f2);
  instances' ← list_add (instances f1) (instances f2);
  memories' ← list_add (memories f1) (memories f2);
  sim' ← list_add (sim f1) (sim f2);
  Fragment_init (Some comb') (Some newsync) (Some instances')
                (Some memories') (Some sim').

(** The loop over the clock and reset bindings of one instance. *)
Definition rename_cr (old new : string) (x : loc) : M unit :=
  o ← load x;
  match o with
  | OCR k name_inst domain =>
      if decide (domain = old) then store x (OCR k name_inst new)
      else ret tt
  | _ => ret tt                        (* not an [Instance._CR]: filtered *)
  end.

(** The loop over the ports of one memory. *)
Definition rename_port (old new : string) (port : loc) : M unit :=
  o ← load port;
  match o with
  | OMemoryPort p =>
      if decide (clock_domain p = old) then
        store port (OMemoryPort
          (mkMemoryPort (adr p) (dat_r p) (we p) (dat_w p) (async_read p)
                        (re p) (we_granularity p) (mode p) new))
      else ret tt
  | _ => raise AttributeError
  end.

(** [Fragment.rename_clock_domain(self, old, new)].  The first two
    statements use the string literals ["new"] and ["old"] as keys. *)
Definition rename_clock_domain (self : loc) (old new : string) : M unit :=
  f ← get_fragment self;
  v ← dict_getitem (sync f) "old";
  dict_setitem (sync f) "new" v;;
  dict_delitem (sync f) "old";;
  insts ← get_list (instances f);
  for_each insts (fun inst =>
    items ← get_items inst;
    for_each items (rename_cr old new));;
  mems ← get_list (memories f);
  for_each mems (fun mem =>
    ports ← get_ports mem;
    for_each ports (rename_port old new)).

(** The union of the sets [body x] for [x] in [l]: a [set(... for x in l)]
    with a nested generator. *)
Fixpoint collect {A} (l : list A) (body : A -> M (gset string))
  : M (gset string) :=
  match l with
  | [] => ret ∅
  | x :: l' =>
      s ← body x;
      r ← collect l' body;
      ret (s ∪ r)
  end.

(** [cr.domain for cr in filter(..., inst.items)] *)
Definition cr_domains (inst : loc) : M (gset string) :=
  items ← get_items inst;
  collect items (fun x =>
    o ← load x;
    match o with
    | OCR _ _ domain => ret {[ domain ]}
    | _ => ret ∅
    end).

(** [port.clock_domain for port in mem.ports] *)
Definition port_domains (mem : loc) : M (gset string) :=
  ports ← get_ports mem;
  collect ports (fun port =>
    o ← load port;
    match o with
    | OMemoryPort p => ret {[ clock_domain p ]}
    | _ => raise AttributeError
    end).

(** [Fragment.get_clock_domains(self)] *)
Definition get_clock_domains (self : loc) : M (gset string) :=
  f ← get_fragment self;
  '(_, m) ← get_dict (sync f);
  let r : gset string := dom m in
  insts ← get_list (instances f);
  r1 ← collect insts cr_domains;
  mems ← get_list (memories f);
  r2 ← collect mems port_domains;
  ret (r ∪ r1 ∪ r2).

(** * Vocabulary of the statements *)

(** ** Signals *)

(** [s] was created in a run from state [w] to state [w']. *)
Definition created_between {backtrace} (w w' : world) (s : signal backtrace)
  : Prop :=
  (next_id w <= sig_id s)%positive /\ (sig_id s < next_id w')%positive /\
  Signal__counter w <= sig_order s /\ sig_order s < Signal__counter w'.

(** Later means a larger index and a larger identity. *)
Definition earlier {backtrace} (s1 s2 : signal backtrace) : Prop :=
  sig_order s1 < sig_order s2 /\ (sig_id s1 < sig_id s2)%positive.

Definition advances (w w' : world) : Prop :=
  (next_id w <= next_id w')%positive /\
  Signal__counter w <= Signal__counter w'.

(** The signals that the object returned by a call carries. *)
Definition signals_of {backtrace} (r : result (constructed backtrace))
  : list (signal backtrace) :=
  match r with
  | Ok (ASignal s) => [s]
  | Ok (AnIO _ s) => [s]
  | Ok (AClockDomain clk rst) => [clk; rst]
  | Raise _ => []
  end.

(** How many times a call evaluates [Signal(...)], read off the call
    alone: a port given a signal, or given neither a signal nor a type,
    builds none. *)
Definition count_new_call {backtrace} (c : construct backtrace) : nat :=
  match c with
  | NewSignal _ _ _ _ _ => 1
  | NewIO _ (GivenBV _) => 1
  | NewIO _ _ => 0
  | NewClockDomain _ _ => 2
  end.

Definition count_new {backtrace} (p : list (construct backtrace)) : nat :=
  sum_list (map count_new_call p).

(** The signals carried by what a signal-building call returned. *)
Definition new_of_call {backtrace} (c : construct backtrace)
    (r : result (constructed backtrace)) : list (signal backtrace) :=
  match count_new_call c with
  | O => []
  | S _ => signals_of r
  end.

(** The signals carried by what the signal-building calls of a run
    returned, in call order. *)
Fixpoint new_signals {backtrace} (p : list (construct backtrace))
    (rs : list (result (constructed backtrace))) : list (signal backtrace) :=
  match p, rs with
  | c :: p', r :: rs' => new_of_call c r ++ new_signals p' rs'
  | _, _ => []
  end.

(** What a call for a port returns. *)
Definition port_outcome {backtrace} (c : construct backtrace)
    (r : result (constructed backtrace)) : Prop :=
  match c with
  | NewIO name (GivenSignal s) => r = Ok (AnIO name s)
  | NewIO name (GivenBV bv) => exists s, r = Ok (AnIO name s) /\ sig_bv s = bv
  | NewIO _ GivenOther => r = Raise TypeError
  | _ => True
  end.

(** ** Expressions and statements *)

Definition is_proxy {backtrace} (e : Value backtrace) : bool :=
  match e with
  | _ArrayProxy _ _ => true
  | _ => false
  end.

(** [[f(c) for c in l]], stopping at the first [c] on which [f] raises. *)
Fixpoint each_choice {A B} (f : A -> result B) (l : list A)
  : result (list B) :=
  match l with
  | [] => Ok []
  | c :: l' =>
      c' ← f c;
      r ← each_choice f l';
      Ok (c' :: r)
  end.


(** [s.Elif(c1, t1).Elif(c2, t2)...] for the arms [(c1, t1), (c2, t2), ...] *)
Fixpoint Elifs {backtrace} (s : Stmt backtrace)
    (arms : list (Value backtrace * list (Stmt backtrace)))
  : result (Stmt backtrace) :=
  match arms with
  | [] => Ok s
  | (cond, t) :: arms' =>
      s' ← Elif s cond t;
      Elifs s' arms'
  end.

(** ** Views of the store *)

(** The elements of the list object at [l]. *)
Definition list_at (h : heap) (l : loc) : option (list loc) :=
  match h !! l with
  | Some (OList xs) => Some xs
  | _ => None
  end.

(** The entries of the dict object at [d]. *)
Definition dict_at (h : heap) (d : loc) : option (gmap string loc) :=
  match h !! d with
  | Some (ODict _ m) => Some m
  | _ => None
  end.

(** The statement list of each clock domain of a [sync] dict. *)
Definition sync_lists (h : heap) (m : gmap string loc)
  : gmap string (list loc) :=
  omap (list_at h) m.

(** The statement lists of the [sync] of the fragment at [r]. *)
Definition sync_of (h : heap) (r : loc) : option (gmap string (list loc)) :=
  match h !! r with
  | Some (OFragment f) => sync_lists h <$> dict_at h (sync f)
  | _ => None
  end.

(** The clock domains that are keys of that [sync]. *)
Definition sync_keys (h : heap) (r : loc) : option (gset string) :=
  match h !! r with
  | Some (OFragment f) => dom <$> dict_at h (sync f)
  | _ => None
  end.

(** Every value of the dict is a list. *)
Definition sync_ok (h : heap) (m : gmap string loc) : Prop :=
  map_Forall (fun _ v => is_Some (list_at h v)) m.

(** The five containers of a fragment and what they hold. *)
Record Fragment_holds (h : heap) (f : Fragment)
    (c : list loc) (s : gmap string loc) (i me sm : list loc) : Prop := {
  holds_comb : list_at h (comb f) = Some c;
  holds_sync : dict_at h (sync f) = Some s;
  holds_sync_ok : sync_ok h s;
  holds_instances : list_at h (instances f) = Some i;
  holds_memories : list_at h (memories f) = Some me;
  holds_sim : list_at h (sim f) = Some sm
}.

(** Per-key concatenation, a missing key counting as the empty list. *)
Definition concat_sync (a b : option (list loc)) : option (list loc) :=
  match a, b with
  | None, None => None
  | _, _ => Some (default [] a ++ default [] b)
  end.

(** The state of the loops of [__add__]: [newsync], a new dict in a store
    that extends the store [h0] of the call, maps each key to a list of its
    own, made after the call; [g] tells what each of these lists holds. *)
Definition add_inv (h0 : heap) (newsync : loc) (h : heap)
    (g : gmap string (list loc)) : Prop :=
  h0 ⊆ h /\ (newsync ∉ dom h0) /\
  exists m,
    h !! newsync = Some (ODict true m) /\
    (forall k v, m !! k = Some v ->
       (v ∉ dom h0) /\ v ≠ newsync /\
       exists xs, h !! v = Some (OList xs) /\ g !! k = Some xs) /\
    (forall k, m !! k = None -> g !! k = None) /\
    (forall k1 k2 v, m !! k1 = Some v -> m !! k2 = Some v -> k1 = k2).

(** [d] is the domain of a clock or reset binding of an instance. *)
Definition instance_domain (h : heap) (insts : list loc) (d : string)
  : Prop :=
  exists inst of_ n items x k name_inst,
    inst ∈ insts /\ h !! inst = Some (OInstance of_ n items) /\
    x ∈ items /\ h !! x = Some (OCR k name_inst d).

(** [d] is the clock domain of a port of a memory. *)
Definition memory_domain (h : heap) (mems : list loc) (d : string) : Prop :=
  exists mem w dp ports init port p,
    mem ∈ mems /\ h !! mem = Some (OMemory w dp ports init) /\
    port ∈ ports /\ h !! port = Some (OMemoryPort p) /\ clock_domain p = d.

(** The instances are [Instance] objects whose items exist. *)
Definition instances_ok (h : heap) (insts : list loc) : Prop :=
  Forall (fun inst => exists of_ n items,
            h !! inst = Some (OInstance of_ n items) /\
            Forall (fun x => is_Some (h !! x)) items) insts.

(** The memories are [Memory] objects whose ports are [MemoryPort]s. *)
Definition memories_ok (h : heap) (mems : list loc) : Prop :=
  Forall (fun mem => exists w dp ports init,
            h !! mem = Some (OMemory w dp ports init) /\
            Forall (fun port => exists p, h !! port = Some (OMemoryPort p))
                   ports) mems.

(** An object that [get_io(name)] passes over. *)
Definition not_io_named (name : string) (o : obj) : Prop :=
  match o with
  | OIO _ n _ => n ≠ name
  | _ => True
  end.

(** The items of an instance, the ports of a memory. *)
Definition items_view (o : obj) : option (list loc) :=
  match o with
  | OInstance _ _ items => Some items
  | _ => None
  end.

Definition ports_view (o : obj) : option (list loc) :=
  match o with
  | OMemory _ _ ports _ => Some ports
  | _ => None
  end.

(** The objects held by the containers [cs], one list after the other. *)
Definition children (view : obj -> option (list loc)) (h : heap)
    (cs : list loc) : list loc :=
  concat (map (fun c => default [] (h !! c ≫= view)) cs).

(** A clock or reset binding after the renaming; any other object is
    left as it is. *)
Definition renamed_cr (old new : string) (o : obj) : obj :=
  match o with
  | OCR k name_inst domain =>
      OCR k name_inst (if decide (domain = old) then new else domain)
  | _ => o
  end.

(** A memory port after the renaming. *)
Definition renamed_port (old new : string) (o : obj) : obj :=
  match o with
  | OMemoryPort p =>
      OMemoryPort
        (mkMemoryPort (adr p) (dat_r p) (we p) (dat_w p) (async_read p)
           (re p) (we_granularity p) (mode p)
           (if decide (clock_domain p = old) then new else clock_domain p))
  | _ => o
  end.

(** What [rename_clock_domain] does to the object at [x]: [T] are the
    items of the instances, [P] the ports of the memories. *)
Definition rename_effect (old new : string) (T P : list loc) (x : loc)
    (o : obj) : obj :=
  let o1 := if decide (x ∈ T) then renamed_cr old new o else o in
  if decide (x ∈ P) then renamed_port old new o1 else o1.

Definition is_port (o : obj) : Prop :=
  match o with
  | OMemoryPort _ => True
  | _ => False
  end.

(** ** A design in the store

    Two fragments.  The first has [sync = {"sys": [s1]}], one combinational
    statement, one instance with a [ResetPort] on domain ["pix"], and no
    memories.  The second has [sync = {"sys": [s2], "pix": [s3]}] and
    nothing else; the empty lists are shared between the two. *)
Definition design : heap :=
  <[1%positive := OList [20%positive]]> (
  <[2%positive := ODict false {[ "sys" := 3%positive ]}]> (
  <[3%positive := OList [21%positive]]> (
  <[4%positive := OList [7%positive]]> (
  <[5%positive := OList []]> (
  <[6%positive := OList []]> (
  <[7%positive := OInstance "foo" "foo" [8%positive]]> (
  <[8%positive := OCR ResetPort "rst" "pix"]> (
  <[9%positive := OFragment (mkFragment 1 2 4 5 6)]> (
  <[10%positive :=
      ODict false (<[ "sys" := 11%positive ]> {[ "pix" := 12%positive ]})]> (
  <[11%positive := OList [22%positive]]> (
  <[12%positive := OList [23%positive]]> (
  <[13%positive := OFragment (mkFragment 5 10 5 5 6)]> (
  <[20%positive := OOpaque]> (
  <[21%positive := OOpaque]> (
  <[22%positive := OOpaque]> (
  <[23%positive := OOpaque]> ∅)))))))))))))))).

Definition design_fragment : loc := 9%positive.
Definition design_fragment2 : loc := 13%positive.

(** An instance [Instance("ff", Parameter("d", ..), ClockPort("d"),
    Input("q", ..), Input("d", ..), Output("d", ..))] in pieces, and an
    instance without ports. *)
Definition cell : heap :=
  <[1%positive := OParameter "d" 20%positive]> (
  <[2%positive := OIO Input "q" 21%positive]> (
  <[3%positive := OIO Input "d" 22%positive]> (
  <[4%positive := OIO Output "d" 23%positive]> (
  <[5%positive := OCR ClockPort "d" "sys"]> (
  <[6%positive := OInstance "ff" "ff" [1%positive; 5%positive]]> (
  <[20%positive := OOpaque]> (
  <[21%positive := OOpaque]> (
  <[22%positive := OOpaque]> (
  <[23%positive := OOpaque]> ∅))))))))).

(** A fragment whose [sync] has a key spelled ["old"], with an instance
    bound to the domains ["sys"] and ["por"] and a memory with one port on
    ["sys"]. *)
Definition legacy : heap :=
  <[1%positive := OList []]> (
  <[2%positive := ODict false {[ "old" := 3%positive ]}]> (
  <[3%positive := OList [20%positive]]> (
  <[4%positive := OList [7%positive]]> (
  <[5%positive := OList [9%positive]]> (
  <[6%positive := OList []]> (
  <[7%positive := OInstance "pll" "pll" [8%positive; 12%positive]]> (
  <[8%positive := OCR ClockPort "clk" "sys"]> (
  <[9%positive := OMemory 8 16 [10%positive] None]> (
  <[10%positive :=
      OMemoryPort (mkMemoryPort 20 20 None None false None 0 1 "sys")]> (
  <[11%positive := OFragment (mkFragment 1 2 4 5 6)]> (
  <[12%positive := OCR ResetPort "rst" "por"]> (
  <[20%positive := OOpaque]> ∅)))))))))))).

Definition legacy_fragment : loc := 11%positive.

(** ** Expressions and statements used as examples *)

(** An 8-bit constant, a condition and an assignment. *)
Definition byte_const : Value unit := Constant 0 (mkBV 8 false).
Definition bit_const : Value unit := Constant 1 (mkBV 1 false).
Definition an_assign : Stmt unit := _Assign byte_const byte_const.

(** * Properties *)

(** ** Width inference *)

Section BitsFor.

Variable ceil_log2_double : Z -> Z.
Context {backtrace : Type}.


Lemma bits_for_int_zero : bits_for_int ceil_log2_double 0 = 1.
Proof. reflexivity. Qed.

(** The recursive call of the source: [bits_for(n) = bits_for(-n) + 1]. *)
Lemma bits_for_int_neg n :
  n < 0 ->
  bits_for_int ceil_log2_double n = bits_for_int ceil_log2_double (- n) + 1.
Proof.
  intros Hn. unfold bits_for_int.
  destruct (Z.ltb_spec n 0) as [_|]; [|lia].
  destruct (Z.ltb_spec (- n) 0) as [|_]; [lia|].
  reflexivity.
Qed.

Lemma bits_for_int_pos n :
  0 < n ->
  bits_for_int ceil_log2_double n =
    ceil_log2_double (int_to_double (n + 1)).
Proof.
  intros Hn. unfold bits_for_int, bits_for_log.
  destruct (Z.ltb_spec n 0); [lia|].
  destruct (Z.eqb_spec n 0); [lia|]. reflexivity.
Qed.

Lemma bits_for_Constant c bv :
  0 <= width bv <= PY_SSIZE_T_MAX ->
  bits_for ceil_log2_double (PyValue (@Constant backtrace c bv)) =
    Ok (width bv).
Proof.
  intros [H1 H2]. simpl. unfold builtin_len.
  destruct (Z.ltb_spec (width bv) 0); [lia|].
  destruct (Z.ltb_spec PY_SSIZE_T_MAX (width bv)); [lia|]. reflexivity.
Qed.

(** The double nearest to [2^53 + 1] is [2^53]. *)
Lemma int_to_double_2p53_succ : int_to_double (2 ^ 53 + 1) = 2 ^ 53.
Proof. reflexivity. Qed.

Lemma int_to_double_2p53 : int_to_double (2 ^ 53) = 2 ^ 53.
Proof. reflexivity. Qed.

Lemma bits_for_int_2p53 :
  bits_for_int ceil_log2_double (2 ^ 53) =
    bits_for_int ceil_log2_double (2 ^ 53 - 1).
Proof.
  rewrite !bits_for_int_pos by lia.
  replace (2 ^ 53 - 1 + 1) with (2 ^ 53) by lia.
  rewrite int_to_double_2p53_succ, int_to_double_2p53. reflexivity.
Qed.

(** C3. [bits_for] reads a positive [n] through the double nearest to
    [n + 1], so it cannot tell [2^53] from [2^53 - 1]: whatever the
    logarithm of the C library returns, the two get the same width, where
    the smallest widths are 54 and 53. *)
Theorem bits_for_2p53_collision :
  bits_for ceil_log2_double (@PyInt backtrace (2 ^ 53)) =
    bits_for ceil_log2_double (@PyInt backtrace (2 ^ 53 - 1)).
Proof. unfold bits_for. rewrite bits_for_int_2p53. reflexivity. Qed.

(** No logarithm makes [bits_for] the smallest width [⌈log2(n+1)⌉] on all
    positive ints. *)
Lemma bits_for_not_log2_up :
  ~ (forall n, 0 < n ->
       bits_for ceil_log2_double (@PyInt backtrace n) =
         Ok (Z.log2_up (n + 1))).
Proof.
  intros H.
  pose proof (H (2 ^ 53) ltac:(lia)) as H1.
  pose proof (H (2 ^ 53 - 1) ltac:(lia)) as H2.
  unfold bits_for in H1, H2. rewrite bits_for_int_2p53 in H1.
  rewrite H1 in H2. vm_compute in H2. discriminate H2.
Qed.

(** C9. A raw int [n] becomes [Constant(n, BV(bits_for(n), n < 0))]
    wherever an expression is expected: as an operand of an operator, of
    [Cat], of [Replicate], and as the right side of an assignment.  The
    constant is unsigned for [n >= 0] and signed for [n < 0]. *)
Theorem cst_int_signedness (n : Z) (op : string)
    (pre post : list (operand backtrace)) (l : Value backtrace) (k : Z) :
  let cst := _cst ceil_log2_double in
  exists w,
    let c : Value backtrace := Constant n (mkBV w (bool_decide (n < 0))) in
    bits_for ceil_log2_double (@PyInt backtrace n) = Ok w /\
    cst (PyInt n) = c /\
    Operator_init ceil_log2_double op (pre ++ PyInt n :: post) =
      _Operator op (map cst pre ++ c :: map cst post) /\
    Cat_init ceil_log2_double (pre ++ PyInt n :: post) =
      Cat (map cst pre ++ c :: map cst post) /\
    Replicate_init ceil_log2_double (PyInt n) k = Replicate c k /\
    Assign_init ceil_log2_double l (PyInt n) = _Assign l c.
Proof.
  intros cst. exists (bits_for_int ceil_log2_double n). intros c.
  assert (Hs : (n <? 0) = bool_decide (n < 0)).
  { destruct (Z.ltb_spec n 0).
    - rewrite bool_decide_eq_true_2; [reflexivity | assumption].
    - rewrite bool_decide_eq_false_2; [reflexivity | lia]. }
  assert (Hc : cst (PyInt n) = c).
  { unfold cst, c. simpl. rewrite Hs. reflexivity. }
  split; [reflexivity|]. split; [exact Hc|].
  unfold Operator_init, Cat_init, Replicate_init, Assign_init.
  fold cst. rewrite map_app, map_cons, Hc.
  repeat split; reflexivity.
Qed.

End BitsFor.

(** ** Slicing sugar *)

Section Slicing.

Context {backtrace : Type}.
Implicit Types (e : Value backtrace) (w i a b s : Z) (oa ob : option Z).

(** An expression with a length is not an array proxy, so [e[key]] runs
    [Value.__getitem__]. *)
Lemma getitem_with_len e w key :
  len e = Ok w -> getitem e key = Value_getitem e key.
Proof. destruct e; simpl; try discriminate; reflexivity. Qed.

Lemma py_or_start a : py_or (Some a) 0 = a.
Proof. unfold py_or. destruct (Z.eqb_spec a 0); congruence. Qed.

Lemma truthy_nonzero b : b ≠ 0 -> truthy (Some b) = Some b.
Proof. intros Hb. unfold truthy. destruct (Z.eqb_spec b 0); congruence. Qed.

Lemma clamp_min w b : (if w <? b then w else b) = Z.min b w.
Proof. destruct (Z.ltb_spec w b); lia. Qed.

Lemma getitem_int e i : Value_getitem e (IInt i) = Ok (_Slice e i (i + 1)).
Proof. reflexivity. Qed.

Lemma getitem_slice_nonzero_stop e w oa b :
  len e = Ok w -> b ≠ 0 ->
  Value_getitem e (ISlice (mkSlice oa (Some b) None)) =
    Ok (_Slice e (py_or oa 0) (Z.min b w)).
Proof.
  intros Hw Hb. unfold Value_getitem. simpl sl_stop. simpl sl_start.
  rewrite truthy_nonzero by assumption. simpl.
  rewrite Hw. simpl. rewrite clamp_min. reflexivity.
Qed.

Lemma getitem_slice_falsy_stop e w oa ob :
  len e = Ok w -> truthy ob = None ->
  Value_getitem e (ISlice (mkSlice oa ob None)) =
    Ok (_Slice e (py_or oa 0) w).
Proof.
  intros Hw Hb. unfold Value_getitem. simpl sl_stop. simpl sl_start.
  rewrite Hb, Hw. simpl.
  rewrite Z.ltb_irrefl. reflexivity.
Qed.

Lemma getitem_slice_step e w oa ob s :
  len e = Ok w ->
  Value_getitem e (ISlice (mkSlice oa ob (Some s))) = Raise KeyError.
Proof.
  intros Hw. unfold Value_getitem. simpl sl_stop.
  destruct (truthy ob); simpl; rewrite Hw; reflexivity.
Qed.

Lemma getitem_not_proxy e key :
  is_proxy e = false -> getitem e key = Value_getitem e key.
Proof. destruct e; try reflexivity. discriminate. Qed.

Lemma getitem_step_raises e oa ob s :
  Value_getitem e (ISlice (mkSlice oa ob (Some s))) =
    match len e with
    | Ok _ => Raise KeyError
    | Raise err => Raise err
    end.
Proof.
  unfold Value_getitem. simpl sl_stop.
  destruct (truthy ob); simpl; destruct (len e); reflexivity.
Qed.

(** C4, as the code has it.  For an expression [e] that is not an array
    proxy: [e[i]] is the one-bit slice [i, i+1); a slice with a step other
    than 1 raises, [KeyError] when [e] has a length and the error of
    [len(e)] otherwise; and when [e] has the length [w], which only a
    constant or a signal has, [e[a:b]] with [b ≠ 0] is the slice
    [a, min b w). *)
Theorem getitem_slice_clamped e w i a b s oa ob :
  is_proxy e = false -> b ≠ 0 -> s ≠ 1 ->
  getitem e (IInt i) = Ok (_Slice e i (i + 1)) /\
  (exists err, getitem e (ISlice (mkSlice oa ob (Some s))) = Raise err) /\
  (len e = Ok w ->
   getitem e (ISlice (mkSlice (Some a) (Some b) None)) =
     Ok (_Slice e a (Z.min b w)) /\
   getitem e (ISlice (mkSlice oa ob (Some s))) = Raise KeyError).
Proof.
  intros Hp Hb _.
  rewrite !(getitem_not_proxy e) by assumption.
  split; [apply getitem_int|]. split.
  - rewrite getitem_step_raises. destruct (len e) as [w'|err]; eauto.
  - intros Hw. split.
    + rewrite (getitem_slice_nonzero_stop e w) by assumption.
      rewrite py_or_start. reflexivity.
    + apply (getitem_slice_step e w). assumption.
Qed.

(** A step of 1, written out, is refused like any other. *)
Lemma getitem_unit_step e w oa ob :
  len e = Ok w ->
  getitem e (ISlice (mkSlice oa ob (Some 1))) = Raise KeyError.
Proof.
  intros Hw. rewrite (getitem_with_len e w) by assumption.
  apply (getitem_slice_step e w). assumption.
Qed.

(** C10, as the code has it.  On an expression [e] that has the length
    [w > 0], which only a constant or a signal has, a stop of 0 is read
    like an omitted stop: [e[a:0]] is the slice [a, w), not the empty
    [a, 0); an omitted start is read as 0. *)
Theorem getitem_zero_stop_is_width e w a ob :
  len e = Ok w -> 0 < w ->
  getitem e (ISlice (mkSlice (Some a) (Some 0) None)) = Ok (_Slice e a w) /\
  getitem e (ISlice (mkSlice (Some a) (Some 0) None)) ≠ Ok (_Slice e a 0) /\
  getitem e (ISlice (mkSlice (Some a) None None)) = Ok (_Slice e a w) /\
  getitem e (ISlice (mkSlice None ob None)) =
    getitem e (ISlice (mkSlice (Some 0) ob None)) /\
  exists stop, getitem e (ISlice (mkSlice None ob None)) =
                 Ok (_Slice e 0 stop).
Proof.
  intros Hw Hpos.
  rewrite !(getitem_with_len e w) by assumption.
  rewrite !(getitem_slice_falsy_stop e w) by (assumption || reflexivity).
  rewrite py_or_start.
  split; [reflexivity|]. split; [intros [=]; lia|]. split; [reflexivity|].
  split; [reflexivity|].
  destruct (truthy ob) as [b|] eqn:Hb.
  - assert (ob = Some b ∧ b ≠ 0) as [-> Hb0].
    { destruct ob as [b'|]; simpl in Hb; [|discriminate].
      destruct (Z.eqb_spec b' 0); [discriminate|]. split; congruence. }
    rewrite (getitem_slice_nonzero_stop e w) by assumption. eauto.
  - rewrite (getitem_slice_falsy_stop e w) by assumption. eauto.
Qed.

End Slicing.

(** ** Case *)

Section CaseArms.

Context {backtrace : Type}.
Implicit Types (cases l : list (arm backtrace))
  (d : option (list (Stmt backtrace))).

Lemma Case_cases_app l1 l2 :
  Case_cases (l1 ++ l2) = Case_cases l1 ++ Case_cases l2.
Proof.
  induction l1 as [|[[|v] b] l1 IH]; simpl; [reflexivity|assumption|].
  rewrite IH. reflexivity.
Qed.

Lemma Case_cases_match_arms
    (l : list (Value backtrace * list (Stmt backtrace))) :
  Case_cases (map match_arm l) = l.
Proof.
  induction l as [|[v b] l IH]; simpl; [reflexivity|].
  rewrite IH. reflexivity.
Qed.

Lemma Case_default_match_arms
    (l : list (Value backtrace * list (Stmt backtrace))) cases d :
  Case_default (map match_arm l ++ cases) d = Case_default cases d.
Proof. induction l as [|[v b] l IH]; simpl; [reflexivity|exact IH]. Qed.

(** Once a default is held, a further marker raises. *)
Lemma Case_default_second l1 l2 b body :
  Case_default (l1 ++ (Default, b) :: l2) (Some body) = Raise ValueError.
Proof.
  induction l1 as [|[[|v] b'] l1 IH]; simpl; [reflexivity|reflexivity|].
  exact IH.
Qed.

Lemma Case_default_two l1 l2 l3 b1 b2 d :
  Case_default (l1 ++ (Default, b1) :: l2 ++ (Default, b2) :: l3) d =
    Raise ValueError.
Proof.
  induction l1 as [|[[|v] b'] l1 IH]; simpl.
  - destruct d; [reflexivity|]. apply Case_default_second.
  - destruct d; [reflexivity|].
    replace (l1 ++ (Default, b1) :: l2 ++ (Default, b2) :: l3)
      with ((l1 ++ (Default, b1) :: l2) ++ (Default, b2) :: l3)
      by (rewrite <- app_assoc; reflexivity).
    apply Case_default_second.
  - exact IH.
Qed.

(** C5.  Two [Default] markers among the arms raise [ValueError].  One
    marker among [N] other arms, wherever it stands, gives a [Case] with
    those [N] arms in their order and the marker's statements as the
    default. *)
Theorem Case_init_default_marker (test : Value backtrace)
    (pre post : list (Value backtrace * list (Stmt backtrace)))
    (body b1 b2 : list (Stmt backtrace)) l1 l2 l3 :
  Case_init test (l1 ++ (Default, b1) :: l2 ++ (Default, b2) :: l3) =
    Raise ValueError /\
  Case_init test (map match_arm pre ++ (Default, body) :: map match_arm post) =
    Ok (Case test (pre ++ post) body) /\
  length (pre ++ post) = (length pre + length post)%nat.
Proof.
  split; [|split].
  - unfold Case_init. rewrite Case_default_two. reflexivity.
  - unfold Case_init.
    rewrite Case_default_match_arms. simpl.
    rewrite <- (app_nil_r (map match_arm post)).
    rewrite Case_default_match_arms. simpl.
    rewrite app_nil_r.
    rewrite Case_cases_app. simpl. rewrite !Case_cases_match_arms.
    reflexivity.
  - apply length_app.
Qed.

End CaseArms.

(** ** Conditional chains *)

Section Conditionals.

Context {backtrace : Type}.
Implicit Types (cond : Value backtrace) (t f clause : list (Stmt backtrace))
  (links : list (Value backtrace * list (Stmt backtrace))).

(** One turn of the loop: the node holds a single [If], the walk moves
    to it. *)
Lemma insert_else_link cond t cond' t' f' clause :
  _insert_else (If cond t [If cond' t' f']) clause =
    (o ← _insert_else (If cond' t' f') clause; Ok (If cond t [o])).
Proof. reflexivity. Qed.

(** The walk passes every link and acts on the terminal node. *)
Lemma insert_else_chain links cond t f clause :
  _insert_else (chain links (If cond t f)) clause =
    (o ← _insert_else (If cond t f) clause; Ok (chain links o)).
Proof.
  induction links as [|[c b] links IH].
  - simpl chain. destruct (_insert_else (If cond t f) clause); reflexivity.
  - change (chain ((c, b) :: links) (If cond t f))
      with (If c b [chain links (If cond t f)]).
    assert (Hif : exists c' t' f', chain links (If cond t f) = If c' t' f').
    { destruct links as [|[c' b'] links']; simpl; eauto. }
    destruct Hif as (c' & t' & f' & Hif).
    rewrite Hif, insert_else_link, <- Hif, IH.
    destruct (_insert_else (If cond t f) clause); reflexivity.
Qed.

Lemma insert_else_open cond t clause :
  _insert_else (If cond t []) clause = Ok (If cond t clause).
Proof. reflexivity. Qed.

Lemma insert_else_filled cond t f clause :
  filled f = true ->
  _insert_else (If cond t f) clause = Raise AssertionError.
Proof.
  destruct f as [|[] [|]]; simpl; intros; try discriminate; reflexivity.
Qed.

Lemma chain_snoc links cond t (last : Stmt backtrace) :
  chain (links ++ [(cond, t)]) last = chain links (If cond t [last]).
Proof.
  induction links as [|[c b] links IH]; simpl; [reflexivity|].
  rewrite IH. reflexivity.
Qed.

(** C6, as the code has it.  [If(cond, body)] has an empty false branch.
    On a chain whose terminal node has an empty false branch, [Else]
    stores its statements there and [Elif] stores a new [If] there, which
    becomes the terminal node.  On a chain whose terminal false branch
    holds statements other than one single [If], both raise
    [AssertionError]; the chain is the value it was.  A false branch that
    holds one single [If] is a link, not a terminal slot. *)
Theorem If_chain_attach links cond t f clause (cond' : Value backtrace) t' :
  filled f = true ->
  If_init cond t = If cond t [] /\
  Else (chain links (If cond t [])) clause =
    Ok (chain links (If cond t clause)) /\
  Elif (chain links (If cond t [])) cond' t' =
    Ok (chain (links ++ [(cond, t)]) (If cond' t' [])) /\
  Else (chain links (If cond t f)) clause = Raise AssertionError /\
  Elif (chain links (If cond t f)) cond' t' = Raise AssertionError.
Proof.
  intros Hf. unfold Else, Elif, If_init.
  rewrite !insert_else_chain, !insert_else_open.
  rewrite !(insert_else_filled cond t f) by assumption.
  rewrite chain_snoc.
  repeat split; reflexivity.
Qed.

End Conditionals.

(** ** Signals *)

Section Signals.

Context {backtrace : Type}.
Variable trace_back : option string -> backtrace.
Implicit Types (w : world) (s : signal backtrace)
  (l : list (signal backtrace)) (p : list (construct backtrace)).

Lemma Signal_init_created bv name variable reset name_override w :
  let '(s, w') :=
    Signal_init trace_back bv name variable reset name_override w in
  created_between w w' s /\ advances w w'.
Proof. unfold created_between, advances. simpl. lia. Qed.

Lemma created_between_weaken w0 w1 w2 w3 s :
  advances w0 w1 -> advances w2 w3 ->
  created_between w1 w2 s -> created_between w0 w3 s.
Proof. unfold advances, created_between. lia. Qed.

Lemma advances_trans w1 w2 w3 :
  advances w1 w2 -> advances w2 w3 -> advances w1 w3.
Proof. unfold advances. lia. Qed.

Lemma advances_refl w : advances w w.
Proof. unfold advances. lia. Qed.

Lemma created_earlier w1 w2 w3 s1 s2 :
  created_between w1 w2 s1 -> created_between w2 w3 s2 -> earlier s1 s2.
Proof. unfold created_between, earlier. lia. Qed.

(** One call: the signals carried by what it returned, when it builds
    signals, take the indices from the counter on. *)
Lemma construct_call_new c w :
  let '(r, w') := construct_call trace_back c w in
  let l := new_of_call c r in
  length l = count_new_call c /\
  map sig_order l =
    seqZ (Signal__counter w) (Z.of_nat (count_new_call c)) /\
  Signal__counter w' = Signal__counter w + Z.of_nat (count_new_call c) /\
  Forall (created_between w w') l /\ StronglySorted earlier l /\
  advances w w' /\ port_outcome c r.
Proof.
  assert (Hone : forall m : Z, seqZ m 1 = [m])
    by (intros m; rewrite seqZ_cons by lia; reflexivity).
  assert (Htwo : forall m : Z, seqZ m 2 = [m; m + 1]).
  { intros m. rewrite seqZ_cons by lia. simpl Z.pred. rewrite Hone.
    replace (Z.succ m) with (m + 1) by lia. reflexivity. }
  destruct c as [bv name variable reset name_override|name [s|bv|]|n1 n2];
    [| | | |destruct n2 as [n2|]]; simpl;
    unfold new_of_call; simpl;
    rewrite ?Hone, ?Htwo;
    unfold created_between, advances, earlier; simpl;
    repeat split; repeat constructor; simpl; eauto; lia.
Qed.

Lemma construct_run_new p w :
  let '(rs, w') := construct_run trace_back p w in
  let l := new_signals p rs in
  length rs = length p /\
  length l = count_new p /\
  map sig_order l = seqZ (Signal__counter w) (Z.of_nat (count_new p)) /\
  Signal__counter w' = Signal__counter w + Z.of_nat (count_new p) /\
  Forall (created_between w w') l /\ StronglySorted earlier l /\
  advances w w' /\ Forall2 port_outcome p rs.
Proof.
  revert w. induction p as [|c p IH]; intros w; simpl.
  - unfold count_new. simpl.
    repeat split; try constructor; try apply advances_refl; lia.
  - pose proof (construct_call_new c w) as H1.
    destruct (construct_call trace_back c w) as [r w1].
    pose proof (IH w1) as H2.
    destruct (construct_run trace_back p w1) as [rs w2].
    simpl in H1, H2 |- *.
    destruct H1 as (L1 & O1 & C1 & F1 & S1 & A1 & P1).
    destruct H2 as (Lr & L2 & O2 & C2 & F2 & S2 & A2 & P2).
    assert (Hcount : count_new (c :: p) = (count_new_call c + count_new p)%nat)
      by reflexivity.
    rewrite Hcount.
    split; [simpl; lia|]. split; [rewrite length_app; lia|].
    split; [|split; [lia|split; [|split; [|split]]]].
    + rewrite map_app, Nat2Z.inj_add, seqZ_app by lia.
      rewrite O1, O2, C1. reflexivity.
    + apply Forall_app. split.
      * eapply Forall_impl; [exact F1|]. intros s Hs.
        eapply created_between_weaken; [apply advances_refl|exact A2|exact Hs].
      * eapply Forall_impl; [exact F2|]. intros s Hs.
        eapply created_between_weaken; [exact A1|apply advances_refl|exact Hs].
    + clear L1 O1. induction S1 as [|s1 l1 S1 IH1 Hall]; simpl; [exact S2|].
      apply Forall_cons in F1 as [Fs1 F1].
      constructor; [apply IH1; exact F1|].
      apply Forall_app. split; [exact Hall|].
      eapply Forall_impl; [exact F2|]. intros s2 Hs2.
      eapply created_earlier; eassumption.
    + eapply advances_trans; eassumption.
    + constructor; assumption.
Qed.

Lemma sorted_NoDup {B} (key : signal backtrace -> B) (R : B -> B -> Prop) l :
  (forall x, ~ R x x) ->
  StronglySorted (fun s1 s2 => R (key s1) (key s2)) l ->
  NoDup (map key l).
Proof.
  intros Hirr HS. induction HS as [|s l HS IH Hall]; simpl; constructor.
  - intros Hin. apply list_elem_of_In in Hin. apply in_map_iff in Hin.
    destruct Hin as (s' & Heq & Hin).
    rewrite Forall_forall in Hall. apply list_elem_of_In in Hin.
    specialize (Hall s' Hin).
    rewrite Heq in Hall. exact (Hirr _ Hall).
  - exact IH.
Qed.

(** C8.  Two signals built one after the other from the same arguments
    are different objects, and the second has the larger index.  Over any
    run of constructor calls, every call that builds signals returns them:
    the signals carried by what these calls returned are as many as the
    calls build, they have strictly increasing indices in call order, and
    no two of them share an index or an identity. *)
Theorem Signal_order_increasing bv name variable reset name_override p w :
  (let '(s1, w1) :=
     Signal_init trace_back bv name variable reset name_override w in
   let '(s2, _) :=
     Signal_init trace_back bv name variable reset name_override w1 in
   sig_id s1 ≠ sig_id s2 /\ s1 ≠ s2 /\ sig_order s1 < sig_order s2) /\
  (let '(rs, _) := construct_run trace_back p w in
   let created := new_signals p rs in
   length rs = length p /\
   length created = count_new p /\
   StronglySorted (fun s1 s2 => sig_order s1 < sig_order s2) created /\
   NoDup (map sig_order created) /\
   NoDup (map sig_id created)).
Proof.
  split.
  - simpl. split; [lia|]. split; [|lia].
    intros [= H]. lia.
  - pose proof (construct_run_new p w) as H.
    destruct (construct_run trace_back p w) as [rs w']. simpl in H |- *.
    destruct H as (Hlen & Hcount & _ & _ & _ & HS & _).
    set (l := new_signals p rs) in *.
    assert (HS1 : StronglySorted (fun s1 s2 => sig_order s1 < sig_order s2) l).
    { clear -HS. induction HS as [|s l HS IH Hall]; constructor; [exact IH|].
      eapply Forall_impl; [exact Hall|]. intros s' [H _]. exact H. }
    assert (HS2 : StronglySorted
                    (fun s1 s2 => (sig_id s1 < sig_id s2)%positive) l).
    { clear -HS. induction HS as [|s l HS IH Hall]; constructor; [exact IH|].
      eapply Forall_impl; [exact Hall|]. intros s' [_ H]. exact H. }
    split; [exact Hlen|]. split; [exact Hcount|].
    split; [exact HS1|]. split.
    + apply (sorted_NoDup sig_order Z.lt); [intros x; lia|exact HS1].
    + apply (sorted_NoDup sig_id Pos.lt); [intros x; lia|exact HS2].
Qed.

(** The run on a concrete list of calls: a signal, a port with a type, a
    port with that signal, a refused port, a clock domain. *)
Example construct_run_orders_example :
  let s0 := fst (Signal_init trace_back BV_default None false 0 None
                   (mkWorld 1 0)) in
  let '(rs, w') :=
    construct_run trace_back
      [NewSignal BV_default None false 0 None;
       NewIO "d" (GivenBV (mkBV 8 false));
       NewIO "q" (GivenSignal s0);
       NewIO "x" GivenOther;
       NewClockDomain "sys" None] (mkWorld 1 0) in
  map sig_order <$> (signals_of <$> rs) = [[0]; [1]; [0]; []; [2; 3]] /\
  Signal__counter w' = 4.
Proof. simpl. split; reflexivity. Qed.

End Signals.

(** ** Running computations on the store *)

Section Store.

Implicit Types (h : heap) (l : loc) (o : obj).

Lemma bind_Ok {A B} (m : M A) (k : A -> M B) h a h' :
  m h = (Ok a, h') -> (m ≫= k) h = k a h'.
Proof. intros H. unfold mbind, M_bind, bind. rewrite H. reflexivity. Qed.

Lemma bind_Raise {A B} (m : M A) (k : A -> M B) h e h' :
  m h = (Raise e, h') -> (m ≫= k) h = (Raise e, h').
Proof. intros H. unfold mbind, M_bind, bind. rewrite H. reflexivity. Qed.

Lemma load_Some h l o : h !! l = Some o -> load l h = (Ok o, h).
Proof. intros H. unfold load. rewrite H. reflexivity. Qed.

Lemma get_list_Ok h l xs : list_at h l = Some xs -> get_list l h = (Ok xs, h).
Proof.
  unfold list_at, get_list. intros H.
  destruct (h !! l) as [[]|] eqn:E; simplify_eq.
  rewrite (bind_Ok _ _ _ _ _ (load_Some _ _ _ E)). reflexivity.
Qed.

Lemma get_dict_Ok h l fac m :
  h !! l = Some (ODict fac m) -> get_dict l h = (Ok (fac, m), h).
Proof.
  intros H. unfold get_dict.
  rewrite (bind_Ok _ _ _ _ _ (load_Some _ _ _ H)). reflexivity.
Qed.

Lemma get_fragment_Ok h l f :
  h !! l = Some (OFragment f) -> get_fragment l h = (Ok f, h).
Proof.
  intros H. unfold get_fragment.
  rewrite (bind_Ok _ _ _ _ _ (load_Some _ _ _ H)). reflexivity.
Qed.

Lemma get_items_Ok h l of_ n items :
  h !! l = Some (OInstance of_ n items) -> get_items l h = (Ok items, h).
Proof.
  intros H. unfold get_items.
  rewrite (bind_Ok _ _ _ _ _ (load_Some _ _ _ H)). reflexivity.
Qed.

Lemma get_ports_Ok h l w d ports init :
  h !! l = Some (OMemory w d ports init) -> get_ports l h = (Ok ports, h).
Proof.
  intros H. unfold get_ports.
  rewrite (bind_Ok _ _ _ _ _ (load_Some _ _ _ H)). reflexivity.
Qed.

Lemma list_at_Some h l xs : list_at h l = Some xs <-> h !! l = Some (OList xs).
Proof.
  unfold list_at. split.
  - destruct (h !! l) as [[]|]; intros; simplify_eq; reflexivity.
  - intros ->. reflexivity.
Qed.

(** A comprehension whose body reads the store without changing it
    returns the union of what the body returns. *)
Lemma collect_reads {A} (xs : list A) (body : A -> M (gset string)) h :
  (forall x, x ∈ xs -> exists s, body x h = (Ok s, h)) ->
  exists r, collect xs body h = (Ok r, h) /\
    forall d, d ∈ r <-> exists x s, x ∈ xs /\ body x h = (Ok s, h) /\ d ∈ s.
Proof.
  induction xs as [|x xs IH]; intros Hbody.
  - exists ∅. split; [reflexivity|].
    intros d. split; [set_solver|].
    intros (x & s & Hx & _). inversion Hx.
  - destruct (Hbody x ltac:(left)) as [s Hs].
    destruct IH as (r & Hr & Hmem).
    { intros y Hy. apply Hbody. right. exact Hy. }
    exists (s ∪ r). split.
    + simpl. rewrite (bind_Ok _ _ _ _ _ Hs), (bind_Ok _ _ _ _ _ Hr).
      reflexivity.
    + intros d. rewrite elem_of_union, Hmem. split.
      * intros [Hd|(y & s' & Hy & Hb & Hd)].
        -- exists x, s. split; [left|]. split; assumption.
        -- exists y, s'. split; [right; exact Hy|]. split; assumption.
      * intros (y & s' & Hy & Hb & Hd).
        apply elem_of_cons in Hy as [->|Hy].
        -- left. rewrite Hs in Hb. simplify_eq. exact Hd.
        -- right. exists y, s'. split; [exact Hy|]. split; assumption.
Qed.

(** *** Clock domains *)

Lemma cr_domains_reads h inst of_ n items :
  h !! inst = Some (OInstance of_ n items) ->
  Forall (fun x => is_Some (h !! x)) items ->
  exists s, cr_domains inst h = (Ok s, h) /\
    forall d, d ∈ s <->
      exists x k name_inst, x ∈ items /\ h !! x = Some (OCR k name_inst d).
Proof.
  intros Hinst Hitems. unfold cr_domains.
  rewrite (bind_Ok _ _ _ _ _ (get_items_Ok _ _ _ _ _ Hinst)).
  edestruct (collect_reads items) as (s & Hs & Hmem); [|exists s; split;
    [exact Hs|]].
  - intros x Hx. rewrite Forall_forall in Hitems.
    destruct (Hitems x Hx) as [o Ho].
    rewrite (bind_Ok _ _ _ _ _ (load_Some _ _ _ Ho)).
    destruct o; eauto.
  - intros d. rewrite Hmem. split.
    + intros (x & s' & Hx & Hb & Hd).
      rewrite Forall_forall in Hitems. destruct (Hitems x Hx) as [o Ho].
      rewrite (bind_Ok _ _ _ _ _ (load_Some _ _ _ Ho)) in Hb.
      destruct o; unfold mret, M_ret, ret in Hb; simplify_eq;
        try (apply not_elem_of_empty in Hd; contradiction).
      apply elem_of_singleton in Hd as ->. eauto.
    + intros (x & k & name_inst & Hx & Ho).
      exists x, {[ d ]}. split; [exact Hx|].
      rewrite (bind_Ok _ _ _ _ _ (load_Some _ _ _ Ho)).
      split; [reflexivity|]. apply elem_of_singleton. reflexivity.
Qed.

Lemma port_domains_reads h mem w dp ports init :
  h !! mem = Some (OMemory w dp ports init) ->
  Forall (fun port => exists p, h !! port = Some (OMemoryPort p)) ports ->
  exists s, port_domains mem h = (Ok s, h) /\
    forall d, d ∈ s <->
      exists port p, port ∈ ports /\ h !! port = Some (OMemoryPort p) /\
                     clock_domain p = d.
Proof.
  intros Hmem Hports. unfold port_domains.
  rewrite (bind_Ok _ _ _ _ _ (get_ports_Ok _ _ _ _ _ _ Hmem)).
  edestruct (collect_reads ports) as (s & Hs & Hin); [|exists s; split;
    [exact Hs|]].
  - intros x Hx. rewrite Forall_forall in Hports.
    destruct (Hports x Hx) as [p Hp].
    rewrite (bind_Ok _ _ _ _ _ (load_Some _ _ _ Hp)). eauto.
  - intros d. rewrite Hin. split.
    + intros (x & s' & Hx & Hb & Hd).
      rewrite Forall_forall in Hports. destruct (Hports x Hx) as [p Hp].
      rewrite (bind_Ok _ _ _ _ _ (load_Some _ _ _ Hp)) in Hb.
      unfold mret, M_ret, ret in Hb. simplify_eq.
      apply elem_of_singleton in Hd as ->. eauto.
    + intros (x & p & Hx & Hp & <-).
      exists x, {[ clock_domain p ]}. split; [exact Hx|].
      rewrite (bind_Ok _ _ _ _ _ (load_Some _ _ _ Hp)).
      split; [reflexivity|]. apply elem_of_singleton. reflexivity.
Qed.

(** C7.  [get_clock_domains()] returns the union of the keys of [sync],
    the domains of the clock and reset bindings of the instances, and the
    clock domains of the ports of the memories; it changes nothing. *)
Theorem get_clock_domains_union h self f fac m insts mems :
  h !! self = Some (OFragment f) ->
  h !! sync f = Some (ODict fac m) ->
  h !! instances f = Some (OList insts) -> instances_ok h insts ->
  h !! memories f = Some (OList mems) -> memories_ok h mems ->
  exists r, get_clock_domains self h = (Ok r, h) /\
    forall d, d ∈ r <->
      d ∈ dom m \/ instance_domain h insts d \/ memory_domain h mems d.
Proof.
  intros Hself Hsync Hinsts Hiok Hmems Hmok. unfold get_clock_domains.
  rewrite (bind_Ok _ _ _ _ _ (get_fragment_Ok _ _ _ Hself)).
  rewrite (bind_Ok _ _ _ _ _ (get_dict_Ok _ _ _ _ Hsync)).
  apply list_at_Some in Hinsts, Hmems.
  rewrite (bind_Ok _ _ _ _ _ (get_list_Ok _ _ _ Hinsts)).
  destruct (collect_reads insts cr_domains h) as (r1 & Hr1 & Hin1).
  { intros inst Hinst. unfold instances_ok in Hiok.
    rewrite Forall_forall in Hiok.
    destruct (Hiok inst Hinst) as (of_ & n & items & Ho & Hitems).
    destruct (cr_domains_reads h inst of_ n items Ho Hitems) as (s & Hs & _).
    eauto. }
  rewrite (bind_Ok _ _ _ _ _ Hr1).
  rewrite (bind_Ok _ _ _ _ _ (get_list_Ok _ _ _ Hmems)).
  destruct (collect_reads mems port_domains h) as (r2 & Hr2 & Hin2).
  { intros mem Hmem. unfold memories_ok in Hmok.
    rewrite Forall_forall in Hmok.
    destruct (Hmok mem Hmem) as (w & dp & ports & init & Ho & Hports).
    destruct (port_domains_reads h mem w dp ports init Ho Hports)
      as (s & Hs & _).
    eauto. }
  rewrite (bind_Ok _ _ _ _ _ Hr2).
  eexists. split; [reflexivity|].
  intros d. rewrite !elem_of_union, Hin1, Hin2.
  unfold instance_domain, memory_domain.
  unfold instances_ok in Hiok. unfold memories_ok in Hmok.
  rewrite Forall_forall in Hiok. rewrite Forall_forall in Hmok.
  split.
  - intros [[Hd|(inst & s & Hinst & Hb & Hd)]|(mem & s & Hmem & Hb & Hd)].
    + left. exact Hd.
    + right. left.
      destruct (Hiok inst Hinst) as (of_ & n & items & Ho & Hitems).
      destruct (cr_domains_reads h inst of_ n items Ho Hitems)
        as (s' & Hs' & Hmem').
      rewrite Hs' in Hb. simplify_eq.
      apply Hmem' in Hd as (x & k & name_inst & Hx & Hcr).
      exists inst, of_, n, items, x, k, name_inst. eauto.
    + right. right.
      destruct (Hmok mem Hmem) as (w & dp & ports & init & Ho & Hports).
      destruct (port_domains_reads h mem w dp ports init Ho Hports)
        as (s' & Hs' & Hmem').
      rewrite Hs' in Hb. simplify_eq.
      apply Hmem' in Hd as (port & p & Hport & Hp & Hcd).
      exists mem, w, dp, ports, init, port, p. eauto.
  - intros [Hd|[Hd|Hd]].
    + left. left. exact Hd.
    + left. right.
      destruct Hd as (inst & of_ & n & items & x & k & name_inst &
                      Hinst & Ho & Hx & Hcr).
      destruct (Hiok inst Hinst) as (of' & n' & items' & Ho' & Hitems).
      rewrite Ho in Ho'. simplify_eq.
      destruct (cr_domains_reads h inst of' n' items' Ho Hitems)
        as (s' & Hs' & Hmem').
      exists inst, s'. split; [exact Hinst|]. split; [exact Hs'|].
      apply Hmem'. eauto.
    + right.
      destruct Hd as (mem & w & dp & ports & init & port & p &
                      Hmem & Ho & Hport & Hp & Hcd).
      destruct (Hmok mem Hmem) as (w' & dp' & ports' & init' & Ho' & Hports).
      rewrite Ho in Ho'. simplify_eq.
      destruct (port_domains_reads h mem w' dp' ports' init' Ho Hports)
        as (s' & Hs' & Hmem').
      exists mem, s'. split; [exact Hmem|]. split; [exact Hs'|].
      apply Hmem'. eauto.
Qed.

(** *** Merging fragments *)

Lemma fresh_lookup_None h : h !! fresh (dom h) = None.
Proof. apply not_elem_of_dom. apply is_fresh. Qed.

Lemma alloc_run h o :
  alloc o h = (Ok (fresh (dom h)), <[fresh (dom h) := o]> h).
Proof. reflexivity. Qed.

Lemma store_run h l o : store l o h = (Ok tt, <[l := o]> h).
Proof. reflexivity. Qed.

Lemma lookup_None_weaken h0 h l : h0 ⊆ h -> h !! l = None -> h0 !! l = None.
Proof.
  intros Hsub Hl. destruct (h0 !! l) as [o|] eqn:E; [|reflexivity].
  rewrite (lookup_weaken _ _ _ _ E Hsub) in Hl. discriminate.
Qed.

Lemma list_at_weaken h h' l xs :
  h ⊆ h' -> list_at h l = Some xs -> list_at h' l = Some xs.
Proof.
  rewrite !list_at_Some. intros Hsub Hl. exact (lookup_weaken _ _ _ _ Hl Hsub).
Qed.

(** [a + b] makes a new list and changes no object. *)
Lemma list_add_new h a b xs ys :
  list_at h a = Some xs -> list_at h b = Some ys ->
  exists l h', list_add a b h = (Ok l, h') /\ h ⊆ h' /\ h !! l = None /\
               list_at h' l = Some (xs ++ ys).
Proof.
  intros Ha Hb.
  exists (fresh (dom h)), (<[fresh (dom h) := OList (xs ++ ys)]> h).
  unfold list_add.
  rewrite (bind_Ok _ _ _ _ _ (get_list_Ok _ _ _ Ha)).
  rewrite (bind_Ok _ _ _ _ _ (get_list_Ok _ _ _ Hb)).
  split; [apply alloc_run|].
  split; [apply insert_subseteq, fresh_lookup_None|].
  split; [apply fresh_lookup_None|].
  apply list_at_Some, lookup_insert_eq.
Qed.

(** [v[:]] makes a new list with the elements of [v]. *)
Lemma list_copy_run h v xs :
  list_at h v = Some xs ->
  list_copy v h = (Ok (fresh (dom h)), <[fresh (dom h) := OList xs]> h).
Proof.
  intros Hv. unfold list_copy.
  rewrite (bind_Ok _ _ _ _ _ (get_list_Ok _ _ _ Hv)). apply alloc_run.
Qed.

(** One turn of the first loop. *)
Lemma copy_entry_step h0 ns h g k v xs :
  add_inv h0 ns h g -> h0 !! v = Some (OList xs) ->
  exists h', copy_entry ns (k, v) h = (Ok tt, h') /\
             add_inv h0 ns h' (<[k := xs]> g).
Proof.
  intros (Hsub & Hns & m & Hm & Hvals & Hnone & Hinj) Hv.
  pose proof (lookup_weaken _ _ _ _ Hv Hsub) as Hv'.
  set (c := fresh (dom h)).
  assert (Hc : h !! c = None) by apply fresh_lookup_None.
  assert (Hcns : c ≠ ns) by congruence.
  exists (<[ns := ODict true (<[k := c]> m)]> (<[c := OList xs]> h)).
  split.
  - unfold copy_entry, list_copy. simpl fst. simpl snd.
    apply list_at_Some in Hv'.
    rewrite (bind_Ok _ _ _ _ _ (list_copy_run _ _ _ Hv')).
    fold c. unfold dict_setitem.
    assert (Hd : <[c := OList xs]> h !! ns = Some (ODict true m))
      by (rewrite lookup_insert_ne by assumption; exact Hm).
    rewrite (bind_Ok _ _ _ _ _ (get_dict_Ok _ _ _ _ Hd)).
    apply store_run.
  - split; [|split; [exact Hns|]].
    { apply insert_subseteq_r; [apply not_elem_of_dom; exact Hns|].
      apply insert_subseteq_r; [exact (lookup_None_weaken _ _ _ Hsub Hc)|].
      exact Hsub. }
    exists (<[k := c]> m). split; [apply lookup_insert_eq|].
    split; [|split].
    + intros k' v' Hk'. destruct (decide (k = k')) as [<-|Hne].
      * rewrite lookup_insert_eq in Hk'. simplify_eq.
        split; [apply not_elem_of_dom;
                exact (lookup_None_weaken _ _ _ Hsub Hc)|].
        split; [exact Hcns|]. exists xs.
        rewrite lookup_insert_ne by congruence.
        rewrite !lookup_insert_eq. split; reflexivity.
      * rewrite lookup_insert_ne in Hk' by assumption.
        destruct (Hvals k' v' Hk') as (H1 & H2 & xs' & H3 & H4).
        split; [exact H1|]. split; [exact H2|]. exists xs'.
        rewrite lookup_insert_ne by congruence.
        rewrite lookup_insert_ne by congruence.
        rewrite lookup_insert_ne by assumption. split; assumption.
    + intros k' Hk'. destruct (decide (k = k')) as [<-|Hne].
      * rewrite lookup_insert_eq in Hk'. discriminate.
      * rewrite lookup_insert_ne in Hk' by assumption.
        rewrite lookup_insert_ne by assumption. apply Hnone, Hk'.
    + intros k1 k2 v' H1 H2.
      destruct (decide (k = k1)) as [<-|Hne1];
        destruct (decide (k = k2)) as [<-|Hne2]; [reflexivity| | |].
      * rewrite lookup_insert_eq in H1. simplify_eq.
        rewrite lookup_insert_ne in H2 by assumption.
        destruct (Hvals k2 _ H2) as (_ & _ & xs' & H3 & _). congruence.
      * rewrite lookup_insert_eq in H2. simplify_eq.
        rewrite lookup_insert_ne in H1 by assumption.
        destruct (Hvals k1 _ H1) as (_ & _ & xs' & H3 & _). congruence.
      * rewrite lookup_insert_ne in H1, H2 by assumption.
        exact (Hinj _ _ _ H1 H2).
Qed.

(** One turn of the second loop. *)
Lemma extend_entry_step h0 ns h g k v ys :
  add_inv h0 ns h g -> h0 !! v = Some (OList ys) ->
  exists h', extend_entry ns (k, v) h = (Ok tt, h') /\
             add_inv h0 ns h' (<[k := default [] (g !! k) ++ ys]> g).
Proof.
  intros (Hsub & Hns & m & Hm & Hvals & Hnone & Hinj) Hv.
  pose proof (lookup_weaken _ _ _ _ Hv Hsub) as Hv'.
  assert (Hvns : v ≠ ns).
  { intros ->. apply Hns. apply elem_of_dom. eauto. }
  unfold extend_entry, dict_getitem. simpl fst. simpl snd.
  destruct (m !! k) as [t|] eqn:Hk.
  - (* the key is there: its list grows in place *)
    destruct (Hvals k t Hk) as (Ht0 & Htns & xs & Ht & Hg).
    exists (<[t := OList (xs ++ ys)]> h). split.
    + rewrite (bind_Ok _ (fun t => list_extend t v) h t h).
      2:{ rewrite (bind_Ok _ _ _ _ _ (get_dict_Ok _ _ _ _ Hm)).
          rewrite Hk. reflexivity. }
      unfold list_extend.
      apply list_at_Some in Ht, Hv'.
      rewrite (bind_Ok _ _ _ _ _ (get_list_Ok _ _ _ Ht)).
      rewrite (bind_Ok _ _ _ _ _ (get_list_Ok _ _ _ Hv')).
      apply store_run.
    + rewrite Hg. simpl default.
      split; [|split; [exact Hns|]].
      { apply insert_subseteq_r; [apply not_elem_of_dom; exact Ht0|exact Hsub]. }
      exists m. split; [rewrite lookup_insert_ne by assumption; exact Hm|].
      split; [|split; [|exact Hinj]].
      * intros k' v' Hk'.
        destruct (Hvals k' v' Hk') as (H1 & H2 & xs' & H3 & H4).
        split; [exact H1|]. split; [exact H2|].
        destruct (decide (k = k')) as [<-|Hne].
        -- simplify_eq. exists (xs ++ ys).
           rewrite !lookup_insert_eq. split; reflexivity.
        -- exists xs'. rewrite lookup_insert_ne.
           2:{ intros <-. apply Hne. exact (Hinj _ _ _ Hk Hk'). }
           rewrite lookup_insert_ne by assumption. split; assumption.
      * intros k' Hk'. rewrite lookup_insert_ne by congruence.
        apply Hnone, Hk'.
  - (* the key is missing: the factory makes its list *)
    set (t := fresh (dom h)).
    assert (Ht : h !! t = None) by apply fresh_lookup_None.
    assert (Htns : t ≠ ns) by congruence.
    assert (Htv : t ≠ v) by congruence.
    rewrite (Hnone k Hk). simpl default.
    set (h1 := <[ns := ODict true (<[k := t]> m)]> (<[t := OList []]> h)).
    exists (<[t := OList ([] ++ ys)]> h1). split.
    + rewrite (bind_Ok _ (fun t => list_extend t v) h t h1).
      2:{ rewrite (bind_Ok _ _ _ _ _ (get_dict_Ok _ _ _ _ Hm)).
          rewrite Hk. simpl.
          rewrite (bind_Ok _ _ _ _ _ (alloc_run _ _)). fold t.
          rewrite (bind_Ok _ _ _ _ _ (store_run _ _ _)). reflexivity. }
      unfold list_extend.
      assert (H1 : list_at h1 t = Some []).
      { apply list_at_Some. unfold h1.
        rewrite lookup_insert_ne by congruence. apply lookup_insert_eq. }
      assert (H2 : list_at h1 v = Some ys).
      { apply list_at_Some. unfold h1.
        rewrite lookup_insert_ne by congruence.
        rewrite lookup_insert_ne by congruence. exact Hv'. }
      rewrite (bind_Ok _ _ _ _ _ (get_list_Ok _ _ _ H1)).
      rewrite (bind_Ok _ _ _ _ _ (get_list_Ok _ _ _ H2)).
      apply store_run.
    + pose proof (lookup_None_weaken _ _ _ Hsub Ht) as Ht0.
      split; [|split; [exact Hns|]].
      { apply insert_subseteq_r; [exact Ht0|].
        apply insert_subseteq_r; [apply not_elem_of_dom; exact Hns|].
        apply insert_subseteq_r; [exact Ht0|exact Hsub]. }
      exists (<[k := t]> m). split.
      { unfold h1. rewrite lookup_insert_ne by congruence.
        apply lookup_insert_eq. }
      split; [|split].
      * intros k' v' Hk'. destruct (decide (k = k')) as [<-|Hne].
        -- rewrite lookup_insert_eq in Hk'. simplify_eq.
           split; [apply not_elem_of_dom; exact Ht0|].
           split; [exact Htns|]. exists ([] ++ ys).
           rewrite !lookup_insert_eq. split; reflexivity.
        -- rewrite lookup_insert_ne in Hk' by assumption.
           destruct (Hvals k' v' Hk') as (H1 & H2 & xs' & H3 & H4).
           split; [exact H1|]. split; [exact H2|]. exists xs'.
           unfold h1. rewrite lookup_insert_ne by congruence.
           rewrite lookup_insert_ne by congruence.
           rewrite lookup_insert_ne by congruence.
           rewrite lookup_insert_ne by assumption. split; assumption.
      * intros k' Hk'. destruct (decide (k = k')) as [<-|Hne].
        -- rewrite lookup_insert_eq in Hk'. discriminate.
        -- rewrite lookup_insert_ne in Hk' by assumption.
           rewrite lookup_insert_ne by assumption. apply Hnone, Hk'.
      * intros k1 k2 v' H1 H2.
        destruct (decide (k = k1)) as [<-|Hne1];
          destruct (decide (k = k2)) as [<-|Hne2]; [reflexivity| | |].
        -- rewrite lookup_insert_eq in H1. simplify_eq.
           rewrite lookup_insert_ne in H2 by assumption.
           destruct (Hvals k2 _ H2) as (_ & _ & xs' & H3 & _). congruence.
        -- rewrite lookup_insert_eq in H2. simplify_eq.
           rewrite lookup_insert_ne in H1 by assumption.
           destruct (Hvals k1 _ H1) as (_ & _ & xs' & H3 & _). congruence.
        -- rewrite lookup_insert_ne in H1, H2 by assumption.
           exact (Hinj _ _ _ H1 H2).
Qed.

(** The first loop copies the list of every entry. *)
Lemma copy_loop h0 ns (items : list (string * loc)) :
  NoDup items.*1 ->
  (forall k v, (k, v) ∈ items -> is_Some (list_at h0 v)) ->
  forall h g, add_inv h0 ns h g ->
  exists h' g',
    for_each items (copy_entry ns) h = (Ok tt, h') /\
    add_inv h0 ns h' g' /\
    forall k, g' !! k =
      match (list_to_map items : gmap string loc) !! k with
      | Some v => list_at h0 v
      | None => g !! k
      end.
Proof.
  induction items as [|[k v] items IH]; intros Hnd Hlists h g Hinv.
  - exists h, g. split; [reflexivity|]. split; [exact Hinv|].
    intros k. rewrite list_to_map_nil, lookup_empty. reflexivity.
  - apply NoDup_cons in Hnd as [Hk Hnd].
    destruct (Hlists k v ltac:(left)) as [xs Hxs].
    destruct (copy_entry_step h0 ns h g k v xs Hinv
                ltac:(by apply list_at_Some)) as (h1 & Hrun1 & Hinv1).
    destruct (IH Hnd ltac:(intros; eapply Hlists; right; eassumption)
                 h1 _ Hinv1) as (h' & g' & Hrun & Hinv' & Hg').
    exists h', g'. split; [|split; [exact Hinv'|]].
    + simpl for_each. rewrite (bind_Ok _ _ _ _ _ Hrun1). exact Hrun.
    + intros k'. rewrite Hg'. simpl list_to_map.
      destruct (decide (k = k')) as [<-|Hne].
      * rewrite (not_elem_of_list_to_map_1 _ _ Hk).
        rewrite !lookup_insert_eq. symmetry. exact Hxs.
      * rewrite !lookup_insert_ne by assumption. reflexivity.
Qed.

(** The second loop extends the list of every entry, a new list for a
    key the first loop did not see. *)
Lemma extend_loop h0 ns (items : list (string * loc)) :
  NoDup items.*1 ->
  (forall k v, (k, v) ∈ items -> is_Some (list_at h0 v)) ->
  forall h g, add_inv h0 ns h g ->
  exists h' g',
    for_each items (extend_entry ns) h = (Ok tt, h') /\
    add_inv h0 ns h' g' /\
    forall k, g' !! k =
      match (list_to_map items : gmap string loc) !! k with
      | Some v => Some (default [] (g !! k) ++ default [] (list_at h0 v))
      | None => g !! k
      end.
Proof.
  induction items as [|[k v] items IH]; intros Hnd Hlists h g Hinv.
  - exists h, g. split; [reflexivity|]. split; [exact Hinv|].
    intros k. rewrite list_to_map_nil, lookup_empty. reflexivity.
  - apply NoDup_cons in Hnd as [Hk Hnd].
    destruct (Hlists k v ltac:(left)) as [ys Hys].
    destruct (extend_entry_step h0 ns h g k v ys Hinv
                ltac:(by apply list_at_Some)) as (h1 & Hrun1 & Hinv1).
    destruct (IH Hnd ltac:(intros; eapply Hlists; right; eassumption)
                 h1 _ Hinv1) as (h' & g' & Hrun & Hinv' & Hg').
    exists h', g'. split; [|split; [exact Hinv'|]].
    + simpl for_each. rewrite (bind_Ok _ _ _ _ _ Hrun1). exact Hrun.
    + intros k'. rewrite Hg'. simpl list_to_map.
      destruct (decide (k = k')) as [<-|Hne].
      * rewrite (not_elem_of_list_to_map_1 _ _ Hk).
        rewrite !lookup_insert_eq. rewrite Hys. reflexivity.
      * rewrite !lookup_insert_ne by assumption. reflexivity.
Qed.

Lemma bind_ret {A B} (a : A) (k : A -> M B) h : (ret a ≫= k) h = k a h.
Proof. reflexivity. Qed.

Lemma dict_items_Ok h d m :
  dict_at h d = Some m -> dict_items d h = (Ok (map_to_list m), h).
Proof.
  unfold dict_at, dict_items. intros H.
  destruct (h !! d) as [[]|] eqn:E; simplify_eq.
  rewrite (bind_Ok _ _ _ _ _ (get_dict_Ok _ _ _ _ E)). reflexivity.
Qed.

Lemma dict_at_weaken h h' d m :
  h ⊆ h' -> dict_at h d = Some m -> dict_at h' d = Some m.
Proof.
  unfold dict_at. intros Hsub H.
  destruct (h !! d) as [o|] eqn:E; [|discriminate].
  rewrite (lookup_weaken _ _ _ _ E Hsub). exact H.
Qed.

Lemma sync_ok_items h m k v :
  sync_ok h m -> (k, v) ∈ map_to_list m -> is_Some (list_at h v).
Proof.
  intros Hok Hin. apply elem_of_map_to_list in Hin. exact (Hok k v Hin).
Qed.

(** C2.  [f1 + f2] returns a new fragment and changes no object of the
    store it is called in, so both operands and their lists are as they
    were.  Its [comb], [instances], [memories] and [sim] hold the elements
    of the first operand followed by those of the second; its [sync] has
    the keys of either operand, each with the list of the first operand
    followed by that of the second, a missing key counting as the empty
    list.  The fragment, its four lists, its dict and every list in the
    dict are objects that did not exist before the call. *)
Theorem Fragment_add_concat h self other f1 f2
    c1 s1 i1 me1 sm1 c2 s2 i2 me2 sm2 :
  h !! self = Some (OFragment f1) -> Fragment_holds h f1 c1 s1 i1 me1 sm1 ->
  h !! other = Some (OFragment f2) -> Fragment_holds h f2 c2 s2 i2 me2 sm2 ->
  exists r fr s h',
    Fragment_add self other h = (Ok r, h') /\
    h ⊆ h' /\
    h' !! r = Some (OFragment fr) /\
    Fragment_holds h' fr (c1 ++ c2) s (i1 ++ i2) (me1 ++ me2) (sm1 ++ sm2) /\
    sync_lists h' s = merge concat_sync (sync_lists h s1) (sync_lists h s2) /\
    h !! r = None /\ h !! comb fr = None /\ h !! sync fr = None /\
    h !! instances fr = None /\ h !! memories fr = None /\
    h !! sim fr = None /\
    map_Forall (fun _ v => h !! v = None) s.
Proof.
  intros Hself [Hc1 Hs1 Hok1 Hi1 Hme1 Hsm1] Hother [Hc2 Hs2 Hok2 Hi2 Hme2 Hsm2].
  set (ns := fresh (dom h)).
  set (h1 := <[ns := ODict true ∅]> h).
  assert (Hns : h !! ns = None) by apply fresh_lookup_None.
  assert (Hinv1 : add_inv h ns h1 ∅).
  { split; [apply insert_subseteq; exact Hns|].
    split; [apply not_elem_of_dom; exact Hns|].
    exists ∅. split; [apply lookup_insert_eq|].
    split; [intros k v Hk; rewrite lookup_empty in Hk; discriminate|].
    split; [intros k _; apply lookup_empty|].
    intros k1 k2 v Hk; rewrite lookup_empty in Hk; discriminate. }
  (* first loop *)
  destruct (copy_loop h ns (map_to_list s1) (NoDup_fst_map_to_list _)
              (fun k v => sync_ok_items h s1 k v Hok1) h1 ∅ Hinv1)
    as (h2 & g1 & Hrun1 & Hinv2 & Hg1).
  (* second loop *)
  destruct (extend_loop h ns (map_to_list s2) (NoDup_fst_map_to_list _)
              (fun k v => sync_ok_items h s2 k v Hok2) h2 g1 Hinv2)
    as (h3 & g2 & Hrun2 & Hinv3 & Hg2).
  pose proof Hinv2 as (Hsub2 & _).
  pose proof Hinv3 as (Hsub3 & _ & m & Hm & Hvals & Hnone & _).
  (* the four concatenations *)
  destruct (list_add_new h3 (comb f1) (comb f2) c1 c2)
    as (l4 & h4 & Hrun4 & Hsub4 & Hl4 & Hat4);
    [by eapply list_at_weaken..|].
  assert (Hsub04 : h ⊆ h4) by (etrans; eassumption).
  destruct (list_add_new h4 (instances f1) (instances f2) i1 i2)
    as (l5 & h5 & Hrun5 & Hsub5 & Hl5 & Hat5);
    [by eapply list_at_weaken..|].
  assert (Hsub05 : h ⊆ h5) by (etrans; eassumption).
  destruct (list_add_new h5 (memories f1) (memories f2) me1 me2)
    as (l6 & h6 & Hrun6 & Hsub6 & Hl6 & Hat6);
    [by eapply list_at_weaken..|].
  assert (Hsub06 : h ⊆ h6) by (etrans; eassumption).
  destruct (list_add_new h6 (sim f1) (sim f2) sm1 sm2)
    as (l7 & h7 & Hrun7 & Hsub7 & Hl7 & Hat7);
    [by eapply list_at_weaken..|].
  assert (Hsub07 : h ⊆ h7) by (etrans; eassumption).
  assert (Hsub37 : h3 ⊆ h7) by (do 3 (etrans; [eassumption|]); assumption).
  set (fr := mkFragment l4 ns l5 l6 l7).
  set (r := fresh (dom h7)).
  assert (Hr : h7 !! r = None) by apply fresh_lookup_None.
  set (h8 := <[r := OFragment fr]> h7).
  assert (Hsub78 : h7 ⊆ h8) by (apply insert_subseteq; exact Hr).
  assert (Hsub38 : h3 ⊆ h8) by (etrans; eassumption).
  exists r, fr, m, h8.
  split; [|split; [etrans; eassumption|split; [apply lookup_insert_eq|]]].
  { unfold Fragment_add.
    rewrite (bind_Ok _ _ _ _ _ (alloc_run _ _)). fold ns h1.
    rewrite (bind_Ok _ _ _ _ _ (get_fragment_Ok _ _ _
               (lookup_weaken _ _ _ _ Hself (proj1 Hinv1)))).
    rewrite (bind_Ok _ _ _ _ _ (dict_items_Ok _ _ _
               (dict_at_weaken _ _ _ _ (proj1 Hinv1) Hs1))).
    rewrite (bind_Ok _ _ _ _ _ Hrun1).
    rewrite (bind_Ok _ _ _ _ _ (get_fragment_Ok _ _ _
               (lookup_weaken _ _ _ _ Hother Hsub2))).
    rewrite (bind_Ok _ _ _ _ _ (dict_items_Ok _ _ _
               (dict_at_weaken _ _ _ _ Hsub2 Hs2))).
    rewrite (bind_Ok _ _ _ _ _ Hrun2).
    rewrite (bind_Ok _ _ _ _ _ Hrun4), (bind_Ok _ _ _ _ _ Hrun5).
    rewrite (bind_Ok _ _ _ _ _ Hrun6), (bind_Ok _ _ _ _ _ Hrun7).
    unfold Fragment_init, or_new. rewrite !bind_ret.
    rewrite (bind_Ok _ _ _ _ _ (load_Some _ _ _
               (lookup_weaken _ _ _ _ Hm Hsub37))).
    rewrite bind_ret. apply alloc_run. }
  split; [|split].
  - (* what the result holds *)
    split; simpl.
    + eapply list_at_weaken; [|exact Hat4]. do 3 (etrans; [eassumption|]). done.
    + unfold dict_at. rewrite (lookup_weaken _ _ _ _ Hm Hsub38). reflexivity.
    + intros k v Hk. destruct (Hvals k v Hk) as (_ & _ & xs & Hv & _).
      exists xs. apply list_at_Some. exact (lookup_weaken _ _ _ _ Hv Hsub38).
    + eapply list_at_weaken; [|exact Hat5]. do 2 (etrans; [eassumption|]). done.
    + eapply list_at_weaken; [|exact Hat6]. etrans; eassumption.
    + eapply list_at_weaken; [|exact Hat7]. assumption.
  - (* the lists of [sync] *)
    apply map_eq. intros k. unfold sync_lists.
    rewrite lookup_merge, !lookup_omap.
    assert (Hk : m !! k ≫= list_at h8 = g2 !! k).
    { destruct (m !! k) as [v|] eqn:Hk; simpl.
      - destruct (Hvals k v Hk) as (_ & _ & xs & Hv & ->).
        apply list_at_Some. exact (lookup_weaken _ _ _ _ Hv Hsub38).
      - symmetry. apply Hnone, Hk. }
    rewrite Hk, Hg2, Hg1, !list_to_map_to_list, lookup_empty.
    destruct (s1 !! k) as [v1|] eqn:E1; destruct (s2 !! k) as [v2|] eqn:E2;
      simpl; try reflexivity.
    + destruct (Hok1 k v1 E1) as [xs ->]. destruct (Hok2 k v2 E2) as [ys ->].
      reflexivity.
    + destruct (Hok1 k v1 E1) as [xs ->]. simpl.
      rewrite app_nil_r. reflexivity.
    + destruct (Hok2 k v2 E2) as [ys ->]. reflexivity.
  - (* new objects *)
    split; [exact (lookup_None_weaken _ _ _ Hsub07 Hr)|].
    split; [exact (lookup_None_weaken _ _ _ Hsub3 Hl4)|].
    split; [exact Hns|].
    split; [exact (lookup_None_weaken _ _ _ Hsub04 Hl5)|].
    split; [exact (lookup_None_weaken _ _ _ Hsub05 Hl6)|].
    split; [exact (lookup_None_weaken _ _ _ Hsub06 Hl7)|].
    intros k v Hk. destruct (Hvals k v Hk) as (Hv & _).
    apply not_elem_of_dom. exact Hv.
Qed.

(** *** Renaming a clock domain *)

(** On a plain dict without the key ["old"], the first statement raises
    and nothing is renamed, whatever [old] and [new] are. *)
Lemma rename_clock_domain_KeyError h self f m old new :
  h !! self = Some (OFragment f) ->
  h !! sync f = Some (ODict false m) ->
  m !! "old" = None ->
  rename_clock_domain self old new h = (Raise KeyError, h).
Proof.
  intros Hself Hsync Hold. unfold rename_clock_domain.
  rewrite (bind_Ok _ _ _ _ _ (get_fragment_Ok _ _ _ Hself)).
  apply bind_Raise. unfold dict_getitem.
  rewrite (bind_Ok _ _ _ _ _ (get_dict_Ok _ _ _ _ Hsync)).
  rewrite Hold. reflexivity.
Qed.

(** C1.  On the design with [sync = {"sys": [s]}], renaming ["sys"] to
    ["pix"] raises [KeyError] at the lookup of the key ["old"]; the list of
    ["sys"] stays under ["sys"] and no key ["pix"] appears. *)
Theorem rename_clock_domain_sys_pix :
  rename_clock_domain design_fragment "sys" "pix" design =
    (Raise KeyError, design) /\
  dict_at design 2%positive = Some {[ "sys" := 3%positive ]}.
Proof.
  split; [|reflexivity].
  apply (rename_clock_domain_KeyError design design_fragment
           (mkFragment 1 2 4 5 6) {[ "sys" := 3%positive ]});
    reflexivity.
Qed.

End Store.

(** * The statements at concrete inputs *)

(** [e[3]], [e[2:20]] and [e[0:8:2]] on an 8-bit constant. *)
Lemma getitem_slice_clamped_witness :
  is_proxy byte_const = false /\ 20 ≠ 0 /\ 2 ≠ 1 /\
  len byte_const = Ok 8 /\
  getitem byte_const (IInt 3) = Ok (_Slice byte_const 3 4) /\
  getitem byte_const (ISlice (mkSlice (Some 2) (Some 20) None)) =
    Ok (_Slice byte_const 2 8) /\
  getitem byte_const (ISlice (mkSlice (Some 0) (Some 8) (Some 2))) =
    Raise KeyError.
Proof.
  split; [reflexivity|]. split; [lia|]. split; [lia|].
  split; [reflexivity|].
  destruct (getitem_slice_clamped byte_const 8 3 2 20 2 (Some 0) (Some 8))
    as (Hint & _ & Hlen); [reflexivity|lia|lia|].
  destruct (Hlen eq_refl) as [Hslice Hstep].
  split; [exact Hint|]. split; [exact Hslice|exact Hstep].
Defined.

(** C4, as stated, at three inputs.  [e[2:0]] on an 8-bit constant: the
    claim gives the slice [2, 0), the code the slice [2, 8).  [e[2:20]] on
    the concatenation of an 8-bit constant: the claim gives the slice
    [2, 8), the code raises [TypeError].  [e[3]] on an array proxy: the
    claim gives a slice, the code a proxy. *)
Lemma getitem_stop_zero_counterexample :
  (len byte_const = Ok 8 /\
   getitem byte_const (ISlice (mkSlice (Some 2) (Some 0) None)) =
     Ok (_Slice byte_const 2 8) /\
   getitem byte_const (ISlice (mkSlice (Some 2) (Some 0) None)) ≠
     Ok (_Slice byte_const 2 (if 8 <? 0 then 8 else 0))) /\
  (getitem (Cat [byte_const]) (ISlice (mkSlice (Some 2) (Some 20) None)) =
     Raise TypeError /\
   getitem (Cat [byte_const]) (ISlice (mkSlice (Some 2) (Some 20) None)) ≠
     Ok (_Slice (Cat [byte_const]) 2 8)) /\
  (getitem (_ArrayProxy [byte_const] bit_const) (IInt 3) =
     Ok (_ArrayProxy [_Slice byte_const 3 4] bit_const) /\
   getitem (_ArrayProxy [byte_const] bit_const) (IInt 3) ≠
     Ok (_Slice (_ArrayProxy [byte_const] bit_const) 3 4)).
Proof.
  split; [|split].
  - split; [reflexivity|]. split; [reflexivity|]. discriminate.
  - split; [reflexivity|discriminate].
  - split; [reflexivity|discriminate].
Qed.

(** C10, as stated, at [e[2:0]] on the concatenation of an 8-bit
    constant: the claim gives the slice [2, 8), the code raises
    [TypeError], the concatenation having no [__len__]. *)
Lemma getitem_zero_stop_counterexample :
  getitem (Cat [byte_const]) (ISlice (mkSlice (Some 2) (Some 0) None)) =
    Raise TypeError /\
  getitem (Cat [byte_const]) (ISlice (mkSlice (Some 2) (Some 0) None)) ≠
    Ok (_Slice (Cat [byte_const]) 2 8).
Proof. split; [reflexivity|discriminate]. Qed.

(** [e[2:0]] on an 8-bit constant. *)
Lemma getitem_zero_stop_is_width_witness :
  len byte_const = Ok 8 /\ 0 < 8 /\
  getitem byte_const (ISlice (mkSlice (Some 2) (Some 0) None)) =
    Ok (_Slice byte_const 2 8).
Proof.
  split; [reflexivity|]. split; [lia|].
  apply (getitem_zero_stop_is_width byte_const 8 2 None); [reflexivity|lia].
Defined.

(** C6, as stated, at [If(c, a).Else(If(c, a)).Else(a)]: the first
    [Else] fills the false branch with one [If]; the claim has the second
    [Else] fail, the code walks into that [If] and attaches there. *)
Lemma Else_after_single_If_counterexample :
  Else (If_init bit_const [an_assign]) [If_init bit_const [an_assign]] =
    Ok (If bit_const [an_assign] [If bit_const [an_assign] []]) /\
  Else (If bit_const [an_assign] [If bit_const [an_assign] []]) [an_assign] =
    Ok (If bit_const [an_assign] [If bit_const [an_assign] [an_assign]]) /\
  Else (If bit_const [an_assign] [If bit_const [an_assign] []]) [an_assign] ≠
    Raise AssertionError.
Proof.
  split; [reflexivity|]. split; [reflexivity|]. discriminate.
Qed.

(** A second [Else] on [If(c, a).Elif(c, a).Else(a)]. *)
Lemma If_chain_attach_witness :
  filled [an_assign] = true /\
  Else (chain [(bit_const, [an_assign])]
              (If bit_const [an_assign] [an_assign])) [an_assign] =
    Raise AssertionError.
Proof.
  split; [reflexivity|].
  apply (If_chain_attach [(bit_const, [an_assign])] bit_const [an_assign]
           [an_assign] [an_assign] bit_const []).
  reflexivity.
Defined.

(** The clock domains of the first fragment of the design. *)
Lemma get_clock_domains_union_witness :
  instances_ok design [7%positive] /\ memories_ok design [] /\
  exists r, get_clock_domains design_fragment design = (Ok r, design) /\
    forall d, d ∈ r <->
      d ∈ dom ({[ "sys" := 3%positive ]} : gmap string loc) \/
      instance_domain design [7%positive] d \/ memory_domain design [] d.
Proof.
  assert (Hi : instances_ok design [7%positive]).
  { constructor; [|constructor].
    exists "foo", "foo", [8%positive]. split; [reflexivity|].
    constructor; [|constructor]. eexists. reflexivity. }
  assert (Hm : memories_ok design []) by constructor.
  split; [exact Hi|]. split; [exact Hm|].
  apply (get_clock_domains_union design design_fragment
           (mkFragment 1 2 4 5 6) false);
    [reflexivity|reflexivity|reflexivity|exact Hi|reflexivity|exact Hm].
Defined.

Example get_clock_domains_design :
  get_clock_domains design_fragment design =
    (Ok ({[ "sys" ]} ∪ {[ "pix" ]}), design).
Proof. vm_compute. reflexivity. Qed.

(** The two fragments of the design, merged. *)
Lemma Fragment_add_concat_witness :
  Fragment_holds design (mkFragment 1 2 4 5 6)
    [20%positive] {[ "sys" := 3%positive ]} [7%positive] [] [] /\
  Fragment_holds design (mkFragment 5 10 5 5 6)
    [] (<[ "sys" := 11%positive ]> {[ "pix" := 12%positive ]}) [] [] [] /\
  exists r fr s h',
    Fragment_add design_fragment design_fragment2 design = (Ok r, h') /\
    design ⊆ h' /\
    h' !! r = Some (OFragment fr) /\
    Fragment_holds h' fr ([20%positive] ++ []) s ([7%positive] ++ [])
      ([] ++ []) ([] ++ []).
Proof.
  assert (H1 : Fragment_holds design (mkFragment 1 2 4 5 6)
                 [20%positive] {[ "sys" := 3%positive ]} [7%positive] [] []).
  { split; try reflexivity.
    apply map_Forall_singleton. eexists. reflexivity. }
  assert (H2 : Fragment_holds design (mkFragment 5 10 5 5 6) []
                 (<[ "sys" := 11%positive ]> {[ "pix" := 12%positive ]})
                 [] [] []).
  { split; try reflexivity.
    apply map_Forall_insert_2; [eexists; reflexivity|].
    apply map_Forall_singleton. eexists. reflexivity. }
  split; [exact H1|]. split; [exact H2|].
  destruct (Fragment_add_concat design design_fragment design_fragment2
              _ _ _ _ _ _ _ _ _ _ _ _ eq_refl H1 eq_refl H2)
    as (r & fr & s & h' & Hrun & Hsub & Hr & Hholds & _).
  exists r, fr, s, h'.
  split; [exact Hrun|]. split; [exact Hsub|]. split; [exact Hr|exact Hholds].
Defined.

(** [{"sys": [s1]}] merged with [{"sys": [s2], "pix": [s3]}] is
    [{"sys": [s1, s2], "pix": [s3]}]. *)
Example Fragment_add_design :
  (let '(r, h') := Fragment_add design_fragment design_fragment2 design in
   match r with
   | Ok r => sync_of h' r
   | Raise _ => None
   end) =
  Some (<[ "sys" := [21%positive; 22%positive] ]>
          {[ "pix" := [23%positive] ]}).
Proof. vm_compute. reflexivity. Qed.

(** On a merged fragment, whose [sync] is a [defaultdict], renaming
    ["sys"] to ["pix"] raises nothing: it leaves the key ["sys"], and adds
    a key ["new"]. *)
Example rename_clock_domain_merged :
  (let '(r, h1) := Fragment_add design_fragment design_fragment2 design in
   match r with
   | Ok r =>
       let '(u, h2) := rename_clock_domain r "sys" "pix" h1 in
       (u, sync_keys h2 r)
   | Raise e => (Raise e, None)
   end) =
  (Ok tt, Some ({[ "sys" ]} ∪ {[ "pix" ]} ∪ {[ "new" ]})).
Proof. vm_compute. reflexivity. Qed.

(** * Further properties *)

(** ** Power-of-two logarithm *)

Section Log2Int.

Implicit Types (n l r k : Z) (fuel : nat).

(** The loop keeps [l = 2^r]. *)
Lemma log2_int_loop_inv fuel n l r l' r' :
  0 <= r -> l = 2 ^ r ->
  log2_int_loop fuel n l r = Some (l', r') ->
  0 <= r' /\ l' = 2 ^ r'.
Proof.
  revert l r. induction fuel as [|fuel IH]; intros l r Hr Hl; simpl;
    destruct (Z.ltb_spec l n) as [Hlt|Hge]; intros Hrun;
    try discriminate;
    try (injection Hrun as <- <-; split; assumption).
  apply (IH (l * 2) (r + 1)); [lia| |exact Hrun].
  rewrite Hl, Z.pow_add_r by lia. reflexivity.
Qed.

Lemma log2_int_loop_stop fuel n l r :
  n <= l -> log2_int_loop fuel n l r = Some (l, r).
Proof.
  intros Hle.
  destruct fuel; simpl; destruct (Z.ltb_spec l n); (lia || reflexivity).
Qed.

(** Below the rounded-up logarithm of [n], the power is below [n]. *)
Lemma pow_below_log2_up n k : 0 <= k < Z.log2_up n -> 2 ^ k < n.
Proof.
  intros [Hk Hlt].
  assert (Hn : 1 < n).
  { destruct (Z.lt_ge_cases 1 n) as [|Hle]; [assumption|].
    rewrite Z.log2_up_eqn0 in Hlt by lia. lia. }
  pose proof (Z.log2_up_spec n Hn) as [Hlow _].
  assert (2 ^ k <= 2 ^ Z.pred (Z.log2_up n)); [|lia].
  apply Z.pow_le_mono_r; lia.
Qed.

Lemma le_pow_log2_up n : n <= 2 ^ Z.log2_up n.
Proof.
  destruct (Z.lt_ge_cases 1 n) as [Hn|Hn].
  - apply Z.log2_up_spec. exact Hn.
  - rewrite Z.log2_up_eqn0 by lia. simpl. lia.
Qed.

(** With enough fuel the loop stops at the first power of two that is
    not below [n]. *)
Lemma log2_int_loop_run n (d : nat) :
  forall fuel k,
    0 <= k -> k <= Z.log2_up n -> Z.to_nat (Z.log2_up n - k) = d ->
    (d <= fuel)%nat ->
    log2_int_loop fuel n (2 ^ k) k = Some (2 ^ Z.log2_up n, Z.log2_up n).
Proof.
  induction d as [|d IH]; intros fuel k Hk Hle Hd Hfuel.
  - assert (k = Z.log2_up n) as -> by lia.
    apply log2_int_loop_stop, le_pow_log2_up.
  - destruct fuel as [|fuel]; [lia|]. simpl.
    pose proof (pow_below_log2_up n k ltac:(lia)) as Hlt.
    destruct (Z.ltb_spec (2 ^ k) n); [|lia].
    replace (2 ^ k * 2) with (2 ^ (k + 1))
      by (rewrite Z.pow_add_r by lia; reflexivity).
    apply IH; lia.
Qed.

Lemma log2_int_run n fuel :
  (Z.to_nat (Z.log2_up n) <= fuel)%nat ->
  log2_int fuel n =
    Some (if 2 ^ Z.log2_up n =? n then Ok (Z.log2_up n)
          else Raise ValueError).
Proof.
  intros Hfuel. unfold log2_int.
  pose proof (Z.log2_up_nonneg n) as Hnn.
  change 1 with (2 ^ 0) at 1.
  rewrite (log2_int_loop_run n (Z.to_nat (Z.log2_up n)) fuel 0) by lia.
  reflexivity.
Qed.

(** X1.  [log2_int(2**r)] returns [r], for every [r >= 0]; the loop makes
    [r] turns. *)
Theorem log2_int_pow2 r fuel :
  0 <= r -> (Z.to_nat r <= fuel)%nat ->
  log2_int fuel (2 ^ r) = Some (Ok r).
Proof.
  intros Hr Hfuel.
  rewrite log2_int_run; rewrite Z.log2_up_pow2 by assumption;
    [|assumption].
  rewrite Z.eqb_refl. reflexivity.
Qed.

(** X2.  [log2_int(n)] returns [r] only when [n = 2**r]; on every other
    [n], zero and the negative ints among them, it raises [ValueError]. *)
Theorem log2_int_only_pow2 n fuel :
  (forall r, log2_int fuel n = Some (Ok r) -> 0 <= r /\ n = 2 ^ r) /\
  ((forall r, 0 <= r -> n ≠ 2 ^ r) ->
   (Z.to_nat (Z.log2_up n) <= fuel)%nat ->
   log2_int fuel n = Some (Raise ValueError)).
Proof.
  split.
  - intros r. unfold log2_int.
    destruct (log2_int_loop fuel n 1 0) as [[l r']|] eqn:E; [|discriminate].
    destruct (log2_int_loop_inv fuel n 1 0 l r' ltac:(lia) eq_refl E)
      as [Hr' Hl].
    destruct (Z.eqb_spec l n); intros; simplify_eq. split; [assumption|done].
  - intros Hnot Hfuel. rewrite log2_int_run by assumption.
    destruct (Z.eqb_spec (2 ^ Z.log2_up n) n) as [Heq|]; [|reflexivity].
    exfalso. apply (Hnot (Z.log2_up n)); [apply Z.log2_up_nonneg|].
    symmetry. exact Heq.
Qed.

End Log2Int.

(** ** Equality of types and constants *)

Lemma BV_eq_true a b : BV_eq a b = true <-> a = b.
Proof.
  destruct a as [w1 s1], b as [w2 s2]. unfold BV_eq. simpl.
  rewrite andb_true_iff, Z.eqb_eq, Bool.eqb_true_iff.
  split; [intros [-> ->]; reflexivity|intros [= -> ->]; done].
Qed.

(** X3.  [Constant.__eq__] holds exactly between constants with the same
    value, width and signedness: the same value under two types gives two
    different constants. *)
Theorem Constant_eq_structural {backtrace} n bv n' bv' :
  Constant_eq n bv n' bv' = true <->
  @Constant backtrace n bv = Constant n' bv'.
Proof.
  unfold Constant_eq. rewrite andb_true_iff, BV_eq_true, Z.eqb_eq.
  split; [intros [-> ->]; reflexivity|intros [= -> ->]; done].
Qed.

(** ** Width inference, the parts without a logarithm *)

Section BitsForExact.

Variable ceil_log2_double : Z -> Z.
Context {backtrace : Type}.

(** X4.  [bits_for(0)] is 1; a negative int gets one bit more than its
    absolute value; a [Constant] gets its declared width, whatever its
    value, when that width is a length Python accepts, and an error
    otherwise. *)
Theorem bits_for_sign_and_constant n c bv :
  0 < n ->
  bits_for ceil_log2_double (@PyInt backtrace 0) = Ok 1 /\
  bits_for ceil_log2_double (@PyInt backtrace (- n)) =
    (w ← bits_for ceil_log2_double (@PyInt backtrace n); Ok (w + 1)) /\
  (bits_for ceil_log2_double (PyValue (@Constant backtrace c bv)) =
     Ok (width bv) <-> 0 <= width bv <= PY_SSIZE_T_MAX).
Proof.
  intros Hn. split; [reflexivity|]. split.
  - unfold bits_for. simpl.
    rewrite (bits_for_int_neg ceil_log2_double (- n)) by lia.
    rewrite Z.opp_involutive. reflexivity.
  - split.
    + simpl. unfold builtin_len.
      destruct (Z.ltb_spec (width bv) 0); [discriminate|].
      destruct (Z.ltb_spec PY_SSIZE_T_MAX (width bv)); [discriminate|].
      intros _. lia.
    + apply bits_for_Constant.
Qed.

End BitsForExact.

(** ** Indexing, beyond constants and signals *)

Section IndexingMore.

Context {backtrace : Type}.
Implicit Types (e c : Value backtrace) (choices : list (Value backtrace)).

(** X5.  An operator, a slice, a [Cat] or a [Replicate] has no [__len__]:
    a slice key on it raises [TypeError] whatever its bounds and step,
    while an int key builds the one-bit slice without any bound check. *)
Theorem getitem_without_len e s i :
  is_proxy e = false -> len e = Raise TypeError ->
  getitem e (ISlice s) = Raise TypeError /\
  getitem e (IInt i) = Ok (_Slice e i (i + 1)).
Proof.
  intros Hp Hlen.
  assert (Hget : forall key, getitem e key = Value_getitem e key).
  { intros key. destruct e; try reflexivity. discriminate Hp. }
  rewrite !Hget. split; [|reflexivity].
  unfold Value_getitem. rewrite Hlen.
  destruct (truthy (sl_stop s)); reflexivity.
Qed.

(** [_ArrayProxy.__getitem__] is the comprehension over the choices. *)
Lemma getitem_proxy choices k key :
  getitem (_ArrayProxy choices k) key =
    (cs ← each_choice (fun c => getitem c key) choices;
     Ok (_ArrayProxy cs k)).
Proof.
  simpl. f_equal.
  induction choices as [|c choices IH]; simpl; [reflexivity|].
  rewrite IH. reflexivity.
Qed.

Lemma each_choice_outcome {A B} (f : A -> result B) (l : list A) :
  match each_choice f l with
  | Ok r => Forall2 (fun x y => f x = Ok y) l r
  | Raise err =>
      exists pre x post,
        l = pre ++ x :: post /\ f x = Raise err /\
        Forall (fun x => exists y, f x = Ok y) pre
  end.
Proof.
  induction l as [|x l IH]; simpl; [constructor|].
  destruct (f x) as [y|err] eqn:Hx; simpl.
  - destruct (each_choice f l) as [r|err]; simpl.
    + constructor; assumption.
    + destruct IH as (pre & x0 & post & -> & Hx0 & Hpre).
      exists (x :: pre), x0, post. split; [reflexivity|].
      split; [assumption|]. constructor; eauto.
  - exists [], x, l. split; [reflexivity|]. split; [assumption|constructor].
Qed.

(** X6.  Indexing an array proxy indexes every choice with the same key,
    in order, and wraps the results with the same selector.  The first
    choice that refuses the key decides the exception.  A proxy without
    choices accepts every key. *)
Theorem getitem_proxy_pairwise choices k key :
  match getitem (_ArrayProxy choices k) key with
  | Ok v =>
      exists cs, v = _ArrayProxy cs k /\
        Forall2 (fun c c' => getitem c key = Ok c') choices cs
  | Raise e =>
      exists pre c post,
        choices = pre ++ c :: post /\ getitem c key = Raise e /\
        Forall (fun c => exists c', getitem c key = Ok c') pre
  end /\
  getitem (_ArrayProxy [] k) key = Ok (_ArrayProxy [] k).
Proof.
  split; [|reflexivity].
  rewrite getitem_proxy.
  pose proof (each_choice_outcome (fun c => getitem c key) choices) as H.
  destruct (each_choice (fun c => getitem c key) choices) as [cs|e]; simpl.
  - exists cs. split; [reflexivity|exact H].
  - exact H.
Qed.

End IndexingMore.

(** ** Case, every list of arms *)

Section CaseCount.

Context {backtrace : Type}.
Implicit Types (cases : list (arm backtrace))
  (d : option (list (Stmt backtrace))).





(** X8.  Without a [Default] marker every arm is kept, in order, and the
    default is empty. *)
Theorem Case_init_no_default (test : Value backtrace)
    (arms : list (Value backtrace * list (Stmt backtrace))) :
  Case_init test (map match_arm arms) = Ok (Case test arms []).
Proof.
  assert (H : Case_default (map match_arm arms) None = Ok None).
  { rewrite <- (app_nil_r (map match_arm arms)), Case_default_match_arms.
    reflexivity. }
  unfold Case_init. rewrite H, Case_cases_match_arms. reflexivity.
Qed.

End CaseCount.

(** ** Conditional chains, every conditional *)

Section ConditionalsMore.

Context {backtrace : Type}.
Implicit Types (s : Stmt backtrace) (cond : Value backtrace)
  (t f clause : list (Stmt backtrace))
  (links arms : list (Value backtrace * list (Stmt backtrace))).



Lemma last_nonempty_default {A} (a : A) (l : list A) (d d' : A) :
  List.last (a :: l) d = List.last (a :: l) d'.
Proof.
  revert a. induction l as [|b l IH]; intros a; [reflexivity|].
  change (List.last (b :: l) d = List.last (b :: l) d'). apply IH.
Qed.

Lemma Elif_open links cond t cond' t' :
  Elif (chain links (If cond t [])) cond' t' =
    Ok (chain (links ++ [(cond, t)]) (If cond' t' [])).
Proof.
  unfold Elif, If_init.
  rewrite insert_else_chain, insert_else_open, chain_snoc. reflexivity.
Qed.

Lemma Elifs_open arms :
  forall links cond t,
    Elifs (chain links (If cond t [])) arms =
      Ok (chain (removelast (links ++ (cond, t) :: arms))
            (If (fst (List.last arms (cond, t)))
                (snd (List.last arms (cond, t))) [])).
Proof.
  induction arms as [|[c1 t1] arms IH]; intros links cond t.
  - simpl Elifs. rewrite removelast_last. reflexivity.
  - simpl Elifs. rewrite Elif_open. simpl.
    rewrite IH. rewrite <- app_assoc. simpl.
    destruct arms as [|a arms]; [reflexivity|].
    rewrite (last_nonempty_default a arms (c1, t1) (cond, t)). reflexivity.
Qed.

(** X10.  [If(c0, t0).Elif(c1, t1)...Elif(cn, tn).Else(f)] is the chain
    of the nodes [(c0, t0)] to [(cn, tn)] in that order, each in the false
    branch of the one before, with [f] as the false branch of the last. *)
Theorem If_Elifs_Else cond t arms f :
  (s ← Elifs (If_init cond t) arms; Else s f) =
    Ok (chain (removelast ((cond, t) :: arms))
          (If (fst (List.last arms (cond, t)))
              (snd (List.last arms (cond, t))) f)).
Proof.
  unfold If_init.
  change (If cond t []) with (chain [] (If cond t [])).
  rewrite (Elifs_open arms [] cond t).
  unfold mbind, result_bind, rbind, Else.
  rewrite insert_else_chain, insert_else_open. reflexivity.
Qed.

(** X11.  [Else()] without statements leaves an open chain as it is, so
    the chain is still open and a later [Else] or [Elif] attaches as if
    the empty one had not been called. *)
Theorem Else_nothing_keeps_open links cond t clause cond' t' :
  Else (chain links (If cond t [])) [] = Ok (chain links (If cond t [])) /\
  (s ← Else (chain links (If cond t [])) []; Else s clause) =
    Else (chain links (If cond t [])) clause /\
  (s ← Else (chain links (If cond t [])) []; Elif s cond' t') =
    Elif (chain links (If cond t [])) cond' t'.
Proof.
  assert (H : Else (chain links (If cond t [])) [] =
              Ok (chain links (If cond t []))).
  { unfold Else. rewrite insert_else_chain, insert_else_open. reflexivity. }
  rewrite H. repeat split; reflexivity.
Qed.

End ConditionalsMore.

(** ** Signals, the indices themselves *)

Section SignalsMore.

Context {backtrace : Type}.
Variable trace_back : option string -> backtrace.
Implicit Types (w : world) (p : list (construct backtrace)).

(** X12.  The indices leave no gap: over a run of constructor calls that
    starts with the counter at [c], the signals carried by what the
    signal-building calls returned have the indices [c, c+1, c+2, ...] in
    call order, and the counter ends at [c] plus their number.  A port
    given an existing signal returns that signal and one given neither a
    signal nor a type raises [TypeError]; both leave the counter and
    every identity as they were. *)
Theorem construct_run_orders p w name s :
  (let '(rs, w') := construct_run trace_back p w in
   map sig_order (new_signals p rs) =
     seqZ (Signal__counter w) (Z.of_nat (count_new p)) /\
   Signal__counter w' = Signal__counter w + Z.of_nat (count_new p) /\
   Forall2 port_outcome p rs) /\
  construct_call trace_back (NewIO name (GivenSignal s)) w =
    (Ok (AnIO name s), w) /\
  construct_call trace_back (NewIO name GivenOther) w =
    (Raise TypeError, w).
Proof.
  split; [|split; reflexivity].
  pose proof (construct_run_new trace_back p w) as H.
  destruct (construct_run trace_back p w) as [rs w']. simpl in H |- *.
  destruct H as (_ & _ & Ho & Hc & _ & _ & _ & Hp).
  split; [exact Ho|]. split; [exact Hc|exact Hp].
Qed.

End SignalsMore.

(** ** Instances *)

Section Instances.

Implicit Types (h : heap) (items pre post : list loc) (name : string).

Lemma get_io_scan_pass h pre rest name :
  Forall (fun y => exists o, h !! y = Some o /\ not_io_named name o) pre ->
  get_io_scan (pre ++ rest) name h = get_io_scan rest name h.
Proof.
  induction 1 as [|y pre (o & Hy & Ho) _ IH]; [reflexivity|].
  simpl. rewrite (bind_Ok _ _ _ _ _ (load_Some _ _ _ Hy)).
  destruct o; try exact IH. simpl in Ho.
  destruct (decide (name0 = name)); [contradiction|exact IH].
Qed.

(** X13.  After [inst = Instance(of, *items, name=nm)], [inst.get_io(name)]
    is the signal of the first [Input], [Output] or [InOut] item called
    [name]: items of other kinds, parameters and clock bindings with that
    name among them, and ports with other names are passed over, and a
    later port with the same name is never reached. *)
Theorem Instance_get_io_first h of_ nm pre x post k name signal :
  Forall (fun y => exists o, h !! y = Some o /\ not_io_named name o) pre ->
  h !! x = Some (OIO k name signal) ->
  exists inst h',
    (inst ← Instance_init of_ (pre ++ x :: post) nm; get_io inst name) h =
      (Ok (Some signal), h') /\
    h ⊆ h' /\ h !! inst = None /\
    h' !! inst =
      Some (OInstance of_ (if decide (nm = "") then of_ else nm)
              (pre ++ x :: post)).
Proof.
  intros Hpre Hx.
  set (inst := fresh (dom h)).
  set (o := OInstance of_ (if decide (nm = "") then of_ else nm)
              (pre ++ x :: post)).
  assert (Hnew : h !! inst = None) by apply fresh_lookup_None.
  assert (Hsub : h ⊆ <[inst := o]> h) by (apply insert_subseteq; exact Hnew).
  exists inst, (<[inst := o]> h).
  split; [|split; [exact Hsub|split; [exact Hnew|apply lookup_insert_eq]]].
  unfold Instance_init. rewrite (bind_Ok _ _ _ _ _ (alloc_run _ _)).
  fold inst o. unfold get_io.
  assert (Hi : <[inst := o]> h !! inst = Some o) by apply lookup_insert_eq.
  rewrite (bind_Ok _ _ _ _ _ (get_items_Ok _ _ _ _ _ Hi)).
  rewrite get_io_scan_pass.
  - simpl. rewrite (bind_Ok _ _ _ _ _
                      (load_Some _ _ _ (lookup_weaken _ _ _ _ Hx Hsub))).
    rewrite decide_True by reflexivity. reflexivity.
  - eapply Forall_impl; [exact Hpre|]. intros y (oy & Hy & Ho).
    exists oy. split; [exact (lookup_weaken _ _ _ _ Hy Hsub)|exact Ho].
Qed.

(** X14.  When no item is a port called [name], [get_io(name)] returns
    [None]: no exception, and the store is as it was. *)
Theorem get_io_absent h self of_ n items name :
  h !! self = Some (OInstance of_ n items) ->
  Forall (fun y => exists o, h !! y = Some o /\ not_io_named name o) items ->
  get_io self name h = (Ok None, h).
Proof.
  intros Hself Hitems. unfold get_io.
  rewrite (bind_Ok _ _ _ _ _ (get_items_Ok _ _ _ _ _ Hself)).
  rewrite <- (app_nil_r items), get_io_scan_pass by assumption.
  reflexivity.
Qed.

End Instances.

(** ** Fragments, construction and algebra *)

Section FragmentAlgebra.

Implicit Types (h : heap) (l : loc) (o : obj) (f : Fragment)
  (m s : gmap string loc).

Lemma Fragment_holds_weaken h h' f c s i me sm :
  h ⊆ h' -> Fragment_holds h f c s i me sm -> Fragment_holds h' f c s i me sm.
Proof.
  intros Hsub [Hc Hs Hok Hi Hme Hsm]. split;
    try (eapply list_at_weaken; eassumption).
  - eapply dict_at_weaken; eassumption.
  - intros k v Hk. destruct (Hok k v Hk) as [xs Hxs].
    exists xs. eapply list_at_weaken; eassumption.
Qed.

Lemma sync_lists_weaken h h' m :
  h ⊆ h' -> sync_ok h m -> sync_lists h' m = sync_lists h m.
Proof.
  intros Hsub Hok. apply map_eq. intros k. unfold sync_lists.
  rewrite !lookup_omap. destruct (m !! k) as [v|] eqn:Hk; [|reflexivity].
  simpl. destruct (Hok k v Hk) as [xs Hxs].
  rewrite Hxs. eapply list_at_weaken; eassumption.
Qed.

Lemma dom_sync_lists h m : sync_ok h m -> dom (sync_lists h m) = dom m.
Proof.
  intros Hok. apply set_eq. intros k.
  rewrite !elem_of_dom. unfold sync_lists. rewrite lookup_omap.
  destruct (m !! k) as [v|] eqn:Hk; simpl.
  - split; [eauto|]. intros _. exact (Hok k v Hk).
  - split; intros [x Hx]; discriminate.
Qed.

Lemma concat_sync_empty_r (g : gmap string (list loc)) :
  merge concat_sync g ∅ = g.
Proof.
  apply map_eq. intros k. rewrite lookup_merge, lookup_empty.
  destruct (g !! k); simpl; [rewrite app_nil_r|]; reflexivity.
Qed.

Lemma concat_sync_empty_l (g : gmap string (list loc)) :
  merge concat_sync ∅ g = g.
Proof.
  apply map_eq. intros k. rewrite lookup_merge, lookup_empty.
  destruct (g !! k); reflexivity.
Qed.

Lemma concat_sync_assoc (a b c : gmap string (list loc)) :
  merge concat_sync (merge concat_sync a b) c =
    merge concat_sync a (merge concat_sync b c).
Proof.
  apply map_eq. intros k. rewrite !lookup_merge.
  destruct (a !! k), (b !! k), (c !! k); simpl;
    rewrite ?app_nil_r, ?app_assoc; reflexivity.
Qed.

Lemma dom_concat_sync (a b : gmap string (list loc)) :
  dom (merge concat_sync a b) = dom a ∪ dom b.
Proof.
  apply set_eq. intros k.
  rewrite elem_of_union, !elem_of_dom, lookup_merge.
  destruct (a !! k), (b !! k); simpl; split; eauto;
    intros [[x Hx]|[x Hx]]; discriminate.
Qed.

(** [Fragment()]: six allocations, each of an object that was not
    there. *)
Lemma Fragment_init_none_run h :
  exists r f h',
    Fragment_init None None None None None h = (Ok r, h') /\
    h ⊆ h' /\
    h' !! r = Some (OFragment f) /\
    Fragment_holds h' f [] ∅ [] [] [] /\
    h' !! sync f = Some (ODict false ∅) /\
    NoDup [r; comb f; sync f; instances f; memories f; sim f] /\
    Forall (fun l => h !! l = None)
           [r; comb f; sync f; instances f; memories f; sim f].
Proof.
  set (l1 := fresh (dom h)). set (h1 := <[l1 := OList []]> h).
  set (l2 := fresh (dom h1)). set (h2 := <[l2 := ODict false ∅]> h1).
  set (l3 := fresh (dom h2)). set (h3 := <[l3 := OList []]> h2).
  set (l4 := fresh (dom h3)). set (h4 := <[l4 := OList []]> h3).
  set (l5 := fresh (dom h4)). set (h5 := <[l5 := OList []]> h4).
  set (f := mkFragment l1 l2 l3 l4 l5).
  set (r := fresh (dom h5)). set (h6 := <[r := OFragment f]> h5).
  assert (N1 : h !! l1 = None) by apply fresh_lookup_None.
  assert (N2 : h1 !! l2 = None) by apply fresh_lookup_None.
  assert (N3 : h2 !! l3 = None) by apply fresh_lookup_None.
  assert (N4 : h3 !! l4 = None) by apply fresh_lookup_None.
  assert (N5 : h4 !! l5 = None) by apply fresh_lookup_None.
  assert (N6 : h5 !! r = None) by apply fresh_lookup_None.
  assert (S1 : h ⊆ h1) by (apply insert_subseteq; exact N1).
  assert (S2 : h1 ⊆ h2) by (apply insert_subseteq; exact N2).
  assert (S3 : h2 ⊆ h3) by (apply insert_subseteq; exact N3).
  assert (S4 : h3 ⊆ h4) by (apply insert_subseteq; exact N4).
  assert (S5 : h4 ⊆ h5) by (apply insert_subseteq; exact N5).
  assert (S6 : h5 ⊆ h6) by (apply insert_subseteq; exact N6).
  assert (E1 : h1 !! l1 = Some (OList [])) by apply lookup_insert_eq.
  assert (E2 : h2 !! l2 = Some (ODict false ∅)) by apply lookup_insert_eq.
  assert (E3 : h3 !! l3 = Some (OList [])) by apply lookup_insert_eq.
  assert (E4 : h4 !! l4 = Some (OList [])) by apply lookup_insert_eq.
  assert (E5 : h5 !! l5 = Some (OList [])) by apply lookup_insert_eq.
  assert (S16 : h1 ⊆ h6) by (do 4 (etrans; [eassumption|]); assumption).
  assert (S26 : h2 ⊆ h6) by (do 3 (etrans; [eassumption|]); assumption).
  assert (S36 : h3 ⊆ h6) by (do 2 (etrans; [eassumption|]); assumption).
  assert (S46 : h4 ⊆ h6) by (etrans; eassumption).
  exists r, f, h6.
  split; [|split; [|split; [|split; [|split; [|split]]]]].
  - unfold Fragment_init, or_new.
    rewrite !(bind_Ok _ _ _ _ _ (alloc_run _ _)).
    fold l1 h1 l2 h2 l3 h3 l4 h4 l5 h5.
    rewrite (bind_Ok _ _ _ _ _ (load_Some _ _ _
               (lookup_weaken _ _ _ _ E2 (transitivity S3 (transitivity S4 S5))))).
    rewrite bind_ret. apply alloc_run.
  - etrans; [exact S1|exact S16].
  - apply lookup_insert_eq.
  - split; simpl; try (apply list_at_Some).
    + exact (lookup_weaken _ _ _ _ E1 S16).
    + unfold dict_at. rewrite (lookup_weaken _ _ _ _ E2 S26). reflexivity.
    + intros k v Hk. rewrite lookup_empty in Hk. discriminate.
    + exact (lookup_weaken _ _ _ _ E3 S36).
    + exact (lookup_weaken _ _ _ _ E4 S46).
    + exact (lookup_weaken _ _ _ _ E5 S6).
  - exact (lookup_weaken _ _ _ _ E2 S26).
  - simpl.
    assert (D1 : h5 !! l1 = Some (OList []))
      by exact (lookup_weaken _ _ _ _ E1
                  (transitivity S2 (transitivity S3 (transitivity S4 S5)))).
    assert (D2 : h5 !! l2 = Some (ODict false ∅))
      by exact (lookup_weaken _ _ _ _ E2 (transitivity S3 (transitivity S4 S5))).
    assert (D3 : h5 !! l3 = Some (OList []))
      by exact (lookup_weaken _ _ _ _ E3 (transitivity S4 S5)).
    assert (D4 : h5 !! l4 = Some (OList []))
      by exact (lookup_weaken _ _ _ _ E4 S5).
    assert (C1 : h4 !! l1 = Some (OList []))
      by exact (lookup_weaken _ _ _ _ E1 (transitivity S2 (transitivity S3 S4))).
    assert (C2 : h4 !! l2 = Some (ODict false ∅))
      by exact (lookup_weaken _ _ _ _ E2 (transitivity S3 S4)).
    assert (C3 : h4 !! l3 = Some (OList []))
      by exact (lookup_weaken _ _ _ _ E3 S4).
    assert (B1 : h3 !! l1 = Some (OList []))
      by exact (lookup_weaken _ _ _ _ E1 (transitivity S2 S3)).
    assert (B2 : h3 !! l2 = Some (ODict false ∅))
      by exact (lookup_weaken _ _ _ _ E2 S3).
    assert (A1 : h2 !! l1 = Some (OList []))
      by exact (lookup_weaken _ _ _ _ E1 S2).
    repeat (apply NoDup_cons; split;
            [rewrite ?elem_of_cons, elem_of_nil; intuition congruence|]).
    apply NoDup_nil_2.
  - repeat (apply Forall_cons; split); try apply Forall_nil_2.
    + exact (lookup_None_weaken _ _ _
               (transitivity S1 (transitivity S2 (transitivity S3
                  (transitivity S4 S5)))) N6).
    + exact N1.
    + exact (lookup_None_weaken _ _ _ S1 N2).
    + exact (lookup_None_weaken _ _ _ (transitivity S1 S2) N3).
    + exact (lookup_None_weaken _ _ _
               (transitivity S1 (transitivity S2 S3)) N4).
    + exact (lookup_None_weaken _ _ _
               (transitivity S1 (transitivity S2 (transitivity S3 S4))) N5).
Qed.

(** X15.  [Fragment()] with no argument makes a fragment whose [comb],
    [instances], [memories] and [sim] are empty lists and whose [sync] is
    an empty dict; the fragment and its five containers are six different
    objects, none of which existed, and no existing object changes. *)
Theorem Fragment_init_default_containers h :
  exists r f h',
    Fragment_init None None None None None h = (Ok r, h') /\
    h ⊆ h' /\
    h' !! r = Some (OFragment f) /\
    Fragment_holds h' f [] ∅ [] [] [] /\
    NoDup [r; comb f; sync f; instances f; memories f; sim f] /\
    Forall (fun l => h !! l = None)
           [r; comb f; sync f; instances f; memories f; sim f].
Proof.
  destruct (Fragment_init_none_run h)
    as (r & f & h' & Hrun & Hsub & Hr & Hholds & _ & Hnd & Hnew).
  exists r, f, h'. repeat (split; [assumption|]). assumption.
Qed.

(** X16.  A list given for [sync] is wrapped: the fragment gets a new
    plain dict whose only key ["sys"] holds that very list object, not a
    copy of it; the other containers are stored as given. *)
Theorem Fragment_init_list_sync h c l i me sm xs :
  h !! l = Some (OList xs) ->
  exists r d h',
    Fragment_init (Some c) (Some l) (Some i) (Some me) (Some sm) h =
      (Ok r, h') /\
    h ⊆ h' /\
    h' !! r = Some (OFragment (mkFragment c d i me sm)) /\
    h' !! d = Some (ODict false {[ "sys" := l ]}) /\
    sync_of h' r = Some {[ "sys" := xs ]} /\
    h !! d = None /\ h !! r = None /\ d ≠ r.
Proof.
  intros Hl.
  set (d := fresh (dom h)).
  set (h1 := <[d := ODict false {[ "sys" := l ]}]> h).
  set (r := fresh (dom h1)).
  set (fr := mkFragment c d i me sm).
  set (h2 := <[r := OFragment fr]> h1).
  assert (N1 : h !! d = None) by apply fresh_lookup_None.
  assert (N2 : h1 !! r = None) by apply fresh_lookup_None.
  assert (S1 : h ⊆ h1) by (apply insert_subseteq; exact N1).
  assert (S2 : h1 ⊆ h2) by (apply insert_subseteq; exact N2).
  assert (E1 : h1 !! d = Some (ODict false {[ "sys" := l ]}))
    by apply lookup_insert_eq.
  assert (Hdr : d ≠ r) by congruence.
  exists r, d, h2.
  split; [|split; [etrans; eassumption|split; [apply lookup_insert_eq|]]].
  { unfold Fragment_init, or_new. rewrite !bind_ret.
    rewrite (bind_Ok _ _ _ _ _ (load_Some _ _ _ Hl)).
    rewrite (bind_Ok _ _ _ _ _ (alloc_run _ _)). apply alloc_run. }
  split; [exact (lookup_weaken _ _ _ _ E1 S2)|].
  split; [|split; [exact N1|split;
    [exact (lookup_None_weaken _ _ _ S1 N2)|exact Hdr]]].
  unfold sync_of. unfold h2 at 1. rewrite lookup_insert_eq. simpl.
  unfold dict_at. rewrite (lookup_weaken _ _ _ _ E1 S2). simpl.
  f_equal. unfold sync_lists. rewrite omap_singleton_Some with (y := xs).
  - reflexivity.
  - apply list_at_Some.
    exact (lookup_weaken _ _ _ _ Hl (transitivity S1 S2)).
Qed.

End FragmentAlgebra.

(** ** Fragments, merging *)

Section FragmentMerge.

Implicit Types (h : heap) (l : loc) (o : obj) (f : Fragment)
  (m s : gmap string loc).

(** What [__add__] does, with the kind of the new dict. *)
Lemma Fragment_add_run h self other f1 f2
    c1 s1 i1 me1 sm1 c2 s2 i2 me2 sm2 :
  h !! self = Some (OFragment f1) -> Fragment_holds h f1 c1 s1 i1 me1 sm1 ->
  h !! other = Some (OFragment f2) -> Fragment_holds h f2 c2 s2 i2 me2 sm2 ->
  exists r fr s h',
    Fragment_add self other h = (Ok r, h') /\
    h ⊆ h' /\
    h' !! r = Some (OFragment fr) /\
    h' !! sync fr = Some (ODict true s) /\
    Fragment_holds h' fr (c1 ++ c2) s (i1 ++ i2) (me1 ++ me2) (sm1 ++ sm2) /\
    sync_lists h' s = merge concat_sync (sync_lists h s1) (sync_lists h s2) /\
    h !! r = None /\ h !! comb fr = None /\ h !! sync fr = None /\
    h !! instances fr = None /\ h !! memories fr = None /\
    h !! sim fr = None /\
    map_Forall (fun _ v => h !! v = None) s.
Proof.
  intros Hself [Hc1 Hs1 Hok1 Hi1 Hme1 Hsm1] Hother [Hc2 Hs2 Hok2 Hi2 Hme2 Hsm2].
  set (ns := fresh (dom h)).
  set (h1 := <[ns := ODict true ∅]> h).
  assert (Hns : h !! ns = None) by apply fresh_lookup_None.
  assert (Hinv1 : add_inv h ns h1 ∅).
  { split; [apply insert_subseteq; exact Hns|].
    split; [apply not_elem_of_dom; exact Hns|].
    exists ∅. split; [apply lookup_insert_eq|].
    split; [intros k v Hk; rewrite lookup_empty in Hk; discriminate|].
    split; [intros k _; apply lookup_empty|].
    intros k1 k2 v Hk; rewrite lookup_empty in Hk; discriminate. }
  (* first loop *)
  destruct (copy_loop h ns (map_to_list s1) (NoDup_fst_map_to_list _)
              (fun k v => sync_ok_items h s1 k v Hok1) h1 ∅ Hinv1)
    as (h2 & g1 & Hrun1 & Hinv2 & Hg1).
  (* second loop *)
  destruct (extend_loop h ns (map_to_list s2) (NoDup_fst_map_to_list _)
              (fun k v => sync_ok_items h s2 k v Hok2) h2 g1 Hinv2)
    as (h3 & g2 & Hrun2 & Hinv3 & Hg2).
  pose proof Hinv2 as (Hsub2 & _).
  pose proof Hinv3 as (Hsub3 & _ & m & Hm & Hvals & Hnone & _).
  (* the four concatenations *)
  destruct (list_add_new h3 (comb f1) (comb f2) c1 c2)
    as (l4 & h4 & Hrun4 & Hsub4 & Hl4 & Hat4);
    [by eapply list_at_weaken..|].
  assert (Hsub04 : h ⊆ h4) by (etrans; eassumption).
  destruct (list_add_new h4 (instances f1) (instances f2) i1 i2)
    as (l5 & h5 & Hrun5 & Hsub5 & Hl5 & Hat5);
    [by eapply list_at_weaken..|].
  assert (Hsub05 : h ⊆ h5) by (etrans; eassumption).
  destruct (list_add_new h5 (memories f1) (memories f2) me1 me2)
    as (l6 & h6 & Hrun6 & Hsub6 & Hl6 & Hat6);
    [by eapply list_at_weaken..|].
  assert (Hsub06 : h ⊆ h6) by (etrans; eassumption).
  destruct (list_add_new h6 (sim f1) (sim f2) sm1 sm2)
    as (l7 & h7 & Hrun7 & Hsub7 & Hl7 & Hat7);
    [by eapply list_at_weaken..|].
  assert (Hsub07 : h ⊆ h7) by (etrans; eassumption).
  assert (Hsub37 : h3 ⊆ h7) by (do 3 (etrans; [eassumption|]); assumption).
  set (fr := mkFragment l4 ns l5 l6 l7).
  set (r := fresh (dom h7)).
  assert (Hr : h7 !! r = None) by apply fresh_lookup_None.
  set (h8 := <[r := OFragment fr]> h7).
  assert (Hsub78 : h7 ⊆ h8) by (apply insert_subseteq; exact Hr).
  assert (Hsub38 : h3 ⊆ h8) by (etrans; eassumption).
  exists r, fr, m, h8.
  split; [|split; [etrans; eassumption|split; [apply lookup_insert_eq|
    split; [exact (lookup_weaken _ _ _ _ Hm Hsub38)|]]]].
  { unfold Fragment_add.
    rewrite (bind_Ok _ _ _ _ _ (alloc_run _ _)). fold ns h1.
    rewrite (bind_Ok _ _ _ _ _ (get_fragment_Ok _ _ _
               (lookup_weaken _ _ _ _ Hself (proj1 Hinv1)))).
    rewrite (bind_Ok _ _ _ _ _ (dict_items_Ok _ _ _
               (dict_at_weaken _ _ _ _ (proj1 Hinv1) Hs1))).
    rewrite (bind_Ok _ _ _ _ _ Hrun1).
    rewrite (bind_Ok _ _ _ _ _ (get_fragment_Ok _ _ _
               (lookup_weaken _ _ _ _ Hother Hsub2))).
    rewrite (bind_Ok _ _ _ _ _ (dict_items_Ok _ _ _
               (dict_at_weaken _ _ _ _ Hsub2 Hs2))).
    rewrite (bind_Ok _ _ _ _ _ Hrun2).
    rewrite (bind_Ok _ _ _ _ _ Hrun4), (bind_Ok _ _ _ _ _ Hrun5).
    rewrite (bind_Ok _ _ _ _ _ Hrun6), (bind_Ok _ _ _ _ _ Hrun7).
    unfold Fragment_init, or_new. rewrite !bind_ret.
    rewrite (bind_Ok _ _ _ _ _ (load_Some _ _ _
               (lookup_weaken _ _ _ _ Hm Hsub37))).
    rewrite bind_ret. apply alloc_run. }
  split; [|split].
  - (* what the result holds *)
    split; simpl.
    + eapply list_at_weaken; [|exact Hat4]. do 3 (etrans; [eassumption|]). done.
    + unfold dict_at. rewrite (lookup_weaken _ _ _ _ Hm Hsub38). reflexivity.
    + intros k v Hk. destruct (Hvals k v Hk) as (_ & _ & xs & Hv & _).
      exists xs. apply list_at_Some. exact (lookup_weaken _ _ _ _ Hv Hsub38).
    + eapply list_at_weaken; [|exact Hat5]. do 2 (etrans; [eassumption|]). done.
    + eapply list_at_weaken; [|exact Hat6]. etrans; eassumption.
    + eapply list_at_weaken; [|exact Hat7]. assumption.
  - (* the lists of [sync] *)
    apply map_eq. intros k. unfold sync_lists.
    rewrite lookup_merge, !lookup_omap.
    assert (Hk : m !! k ≫= list_at h8 = g2 !! k).
    { destruct (m !! k) as [v|] eqn:Hk; simpl.
      - destruct (Hvals k v Hk) as (_ & _ & xs & Hv & ->).
        apply list_at_Some. exact (lookup_weaken _ _ _ _ Hv Hsub38).
      - symmetry. apply Hnone, Hk. }
    rewrite Hk, Hg2, Hg1, !list_to_map_to_list, lookup_empty.
    destruct (s1 !! k) as [v1|] eqn:E1; destruct (s2 !! k) as [v2|] eqn:E2;
      simpl; try reflexivity.
    + destruct (Hok1 k v1 E1) as [xs ->]. destruct (Hok2 k v2 E2) as [ys ->].
      reflexivity.
    + destruct (Hok1 k v1 E1) as [xs ->]. simpl.
      rewrite app_nil_r. reflexivity.
    + destruct (Hok2 k v2 E2) as [ys ->]. reflexivity.
  - (* new objects *)
    split; [exact (lookup_None_weaken _ _ _ Hsub07 Hr)|].
    split; [exact (lookup_None_weaken _ _ _ Hsub3 Hl4)|].
    split; [exact Hns|].
    split; [exact (lookup_None_weaken _ _ _ Hsub04 Hl5)|].
    split; [exact (lookup_None_weaken _ _ _ Hsub05 Hl6)|].
    split; [exact (lookup_None_weaken _ _ _ Hsub06 Hl7)|].
    intros k v Hk. destruct (Hvals k v Hk) as (Hv & _).
    apply not_elem_of_dom. exact Hv.
Qed.

(** X17.  The empty fragment is neutral: [f + Fragment()] and
    [Fragment() + f] hold what [f] holds, list by list and clock domain by
    clock domain. *)
Theorem Fragment_add_empty h self f c s i me sm :
  h !! self = Some (OFragment f) -> Fragment_holds h f c s i me sm ->
  (exists r fr s' h',
     (e ← Fragment_init None None None None None; Fragment_add self e) h =
       (Ok r, h') /\
     h' !! r = Some (OFragment fr) /\
     Fragment_holds h' fr c s' i me sm /\
     sync_lists h' s' = sync_lists h s) /\
  (exists r fr s' h',
     (e ← Fragment_init None None None None None; Fragment_add e self) h =
       (Ok r, h') /\
     h' !! r = Some (OFragment fr) /\
     Fragment_holds h' fr c s' i me sm /\
     sync_lists h' s' = sync_lists h s).
Proof.
  intros Hself Hholds.
  destruct (Fragment_init_none_run h)
    as (e & fe & h1 & Hrun1 & Hsub1 & He & Hholds_e & _).
  pose proof (lookup_weaken _ _ _ _ Hself Hsub1) as Hself1.
  pose proof (Fragment_holds_weaken _ _ _ _ _ _ _ _ Hsub1 Hholds) as Hholds1.
  assert (Hempty : sync_lists h1 ∅ = ∅) by apply omap_empty.
  assert (Hs : sync_lists h1 s = sync_lists h s)
    by (apply sync_lists_weaken; [exact Hsub1|apply Hholds]).
  split.
  - destruct (Fragment_add_run h1 self e f fe _ _ _ _ _ _ _ _ _ _
                Hself1 Hholds1 He Hholds_e)
      as (r & fr & s' & h' & Hrun & _ & Hr & _ & Hh & Hsl & _).
    exists r, fr, s', h'.
    rewrite (bind_Ok _ _ _ _ _ Hrun1).
    split; [exact Hrun|]. split; [exact Hr|].
    rewrite !app_nil_r in Hh. split; [exact Hh|].
    rewrite Hsl, Hempty, concat_sync_empty_r. exact Hs.
  - destruct (Fragment_add_run h1 e self fe f _ _ _ _ _ _ _ _ _ _
                He Hholds_e Hself1 Hholds1)
      as (r & fr & s' & h' & Hrun & _ & Hr & _ & Hh & Hsl & _).
    exists r, fr, s', h'.
    rewrite (bind_Ok _ _ _ _ _ Hrun1).
    split; [exact Hrun|]. split; [exact Hr|].
    split; [exact Hh|].
    rewrite Hsl, Hempty, concat_sync_empty_l. exact Hs.
Qed.

(** X18.  Merging is associative in what the result holds:
    [(f1 + f2) + f3] and [f1 + (f2 + f3)] are different objects with the
    same lists and the same statements for every clock domain. *)
Theorem Fragment_add_assoc h x y z f1 f2 f3
    c1 s1 i1 me1 sm1 c2 s2 i2 me2 sm2 c3 s3 i3 me3 sm3 :
  h !! x = Some (OFragment f1) -> Fragment_holds h f1 c1 s1 i1 me1 sm1 ->
  h !! y = Some (OFragment f2) -> Fragment_holds h f2 c2 s2 i2 me2 sm2 ->
  h !! z = Some (OFragment f3) -> Fragment_holds h f3 c3 s3 i3 me3 sm3 ->
  exists r fr s h' r' fr' s' h'',
    (a ← Fragment_add x y; Fragment_add a z) h = (Ok r, h') /\
    (b ← Fragment_add y z; Fragment_add x b) h = (Ok r', h'') /\
    h' !! r = Some (OFragment fr) /\
    h'' !! r' = Some (OFragment fr') /\
    Fragment_holds h' fr (c1 ++ c2 ++ c3) s (i1 ++ i2 ++ i3)
      (me1 ++ me2 ++ me3) (sm1 ++ sm2 ++ sm3) /\
    Fragment_holds h'' fr' (c1 ++ c2 ++ c3) s' (i1 ++ i2 ++ i3)
      (me1 ++ me2 ++ me3) (sm1 ++ sm2 ++ sm3) /\
    sync_lists h' s = sync_lists h'' s'.
Proof.
  intros Hx H1 Hy H2 Hz H3.
  (* (x + y) + z *)
  destruct (Fragment_add_run h x y f1 f2 _ _ _ _ _ _ _ _ _ _ Hx H1 Hy H2)
    as (a & fa & sa & ha & Hruna & Hsuba & Ha & _ & Hha & Hsla & _).
  destruct (Fragment_add_run ha a z fa f3 _ _ _ _ _ _ _ _ _ _
              Ha Hha (lookup_weaken _ _ _ _ Hz Hsuba)
              (Fragment_holds_weaken _ _ _ _ _ _ _ _ Hsuba H3))
    as (r & fr & s & h' & Hrun & _ & Hr & _ & Hh & Hsl & _).
  (* x + (y + z) *)
  destruct (Fragment_add_run h y z f2 f3 _ _ _ _ _ _ _ _ _ _ Hy H2 Hz H3)
    as (b & fb & sb & hb & Hrunb & Hsubb & Hb & _ & Hhb & Hslb & _).
  destruct (Fragment_add_run hb x b f1 fb _ _ _ _ _ _ _ _ _ _
              (lookup_weaken _ _ _ _ Hx Hsubb)
              (Fragment_holds_weaken _ _ _ _ _ _ _ _ Hsubb H1) Hb Hhb)
    as (r' & fr' & s' & h'' & Hrun' & _ & Hr' & _ & Hh' & Hsl' & _).
  exists r, fr, s, h', r', fr', s', h''.
  rewrite (bind_Ok _ _ _ _ _ Hruna), (bind_Ok _ _ _ _ _ Hrunb).
  split; [exact Hrun|]. split; [exact Hrun'|].
  split; [exact Hr|]. split; [exact Hr'|].
  rewrite <- !app_assoc in Hh.
  split; [exact Hh|]. split; [exact Hh'|].
  rewrite Hsl, Hsl', Hsla, Hslb.
  rewrite (sync_lists_weaken h ha s3 Hsuba) by apply H3.
  rewrite (sync_lists_weaken h hb s1 Hsubb) by apply H1.
  apply concat_sync_assoc.
Qed.

End FragmentMerge.

(** ** Clock domains of a merged fragment *)

Section ClockDomainsMerge.

Implicit Types (h : heap) (l : loc) (o : obj) (f : Fragment)
  (m s : gmap string loc) (insts mems : list loc).

Lemma get_clock_domains_run h self f fac m insts mems :
  h !! self = Some (OFragment f) ->
  h !! sync f = Some (ODict fac m) ->
  h !! instances f = Some (OList insts) -> instances_ok h insts ->
  h !! memories f = Some (OList mems) -> memories_ok h mems ->
  exists r, get_clock_domains self h = (Ok r, h) /\
    forall d, d ∈ r <->
      d ∈ dom m \/ instance_domain h insts d \/ memory_domain h mems d.
Proof.
  intros Hself Hsync Hinsts Hiok Hmems Hmok. unfold get_clock_domains.
  rewrite (bind_Ok _ _ _ _ _ (get_fragment_Ok _ _ _ Hself)).
  rewrite (bind_Ok _ _ _ _ _ (get_dict_Ok _ _ _ _ Hsync)).
  apply list_at_Some in Hinsts, Hmems.
  rewrite (bind_Ok _ _ _ _ _ (get_list_Ok _ _ _ Hinsts)).
  destruct (collect_reads insts cr_domains h) as (r1 & Hr1 & Hin1).
  { intros inst Hinst. unfold instances_ok in Hiok.
    rewrite Forall_forall in Hiok.
    destruct (Hiok inst Hinst) as (of_ & n & items & Ho & Hitems).
    destruct (cr_domains_reads h inst of_ n items Ho Hitems) as (s & Hs & _).
    eauto. }
  rewrite (bind_Ok _ _ _ _ _ Hr1).
  rewrite (bind_Ok _ _ _ _ _ (get_list_Ok _ _ _ Hmems)).
  destruct (collect_reads mems port_domains h) as (r2 & Hr2 & Hin2).
  { intros mem Hmem. unfold memories_ok in Hmok.
    rewrite Forall_forall in Hmok.
    destruct (Hmok mem Hmem) as (w & dp & ports & init & Ho & Hports).
    destruct (port_domains_reads h mem w dp ports init Ho Hports)
      as (s & Hs & _).
    eauto. }
  rewrite (bind_Ok _ _ _ _ _ Hr2).
  eexists. split; [reflexivity|].
  intros d. rewrite !elem_of_union, Hin1, Hin2.
  unfold instance_domain, memory_domain.
  unfold instances_ok in Hiok. unfold memories_ok in Hmok.
  rewrite Forall_forall in Hiok. rewrite Forall_forall in Hmok.
  split.
  - intros [[Hd|(inst & s & Hinst & Hb & Hd)]|(mem & s & Hmem & Hb & Hd)].
    + left. exact Hd.
    + right. left.
      destruct (Hiok inst Hinst) as (of_ & n & items & Ho & Hitems).
      destruct (cr_domains_reads h inst of_ n items Ho Hitems)
        as (s' & Hs' & Hmem').
      rewrite Hs' in Hb. simplify_eq.
      apply Hmem' in Hd as (x & k & name_inst & Hx & Hcr).
      exists inst, of_, n, items, x, k, name_inst. eauto.
    + right. right.
      destruct (Hmok mem Hmem) as (w & dp & ports & init & Ho & Hports).
      destruct (port_domains_reads h mem w dp ports init Ho Hports)
        as (s' & Hs' & Hmem').
      rewrite Hs' in Hb. simplify_eq.
      apply Hmem' in Hd as (port & p & Hport & Hp & Hcd).
      exists mem, w, dp, ports, init, port, p. eauto.
  - intros [Hd|[Hd|Hd]].
    + left. left. exact Hd.
    + left. right.
      destruct Hd as (inst & of_ & n & items & x & k & name_inst &
                      Hinst & Ho & Hx & Hcr).
      destruct (Hiok inst Hinst) as (of' & n' & items' & Ho' & Hitems).
      rewrite Ho in Ho'. simplify_eq.
      destruct (cr_domains_reads h inst of' n' items' Ho Hitems)
        as (s' & Hs' & Hmem').
      exists inst, s'. split; [exact Hinst|]. split; [exact Hs'|].
      apply Hmem'. eauto.
    + right.
      destruct Hd as (mem & w & dp & ports & init & port & p &
                      Hmem & Ho & Hport & Hp & Hcd).
      destruct (Hmok mem Hmem) as (w' & dp' & ports' & init' & Ho' & Hports).
      rewrite Ho in Ho'. simplify_eq.
      destruct (port_domains_reads h mem w' dp' ports' init' Ho Hports)
        as (s' & Hs' & Hmem').
      exists mem, s'. split; [exact Hmem|]. split; [exact Hs'|].
      apply Hmem'. eauto.
Qed.

Lemma instances_ok_weaken h h' insts :
  h ⊆ h' -> instances_ok h insts -> instances_ok h' insts.
Proof.
  intros Hsub Hok. unfold instances_ok. eapply Forall_impl; [exact Hok|].
  intros inst (of_ & n & items & Ho & Hitems).
  exists of_, n, items. split; [exact (lookup_weaken _ _ _ _ Ho Hsub)|].
  eapply Forall_impl; [exact Hitems|].
  intros x [ox Hx]. exists ox. exact (lookup_weaken _ _ _ _ Hx Hsub).
Qed.

Lemma memories_ok_weaken h h' mems :
  h ⊆ h' -> memories_ok h mems -> memories_ok h' mems.
Proof.
  intros Hsub Hok. unfold memories_ok. eapply Forall_impl; [exact Hok|].
  intros mem (w & dp & ports & init & Ho & Hports).
  exists w, dp, ports, init. split; [exact (lookup_weaken _ _ _ _ Ho Hsub)|].
  eapply Forall_impl; [exact Hports|].
  intros x [p Hx]. exists p. exact (lookup_weaken _ _ _ _ Hx Hsub).
Qed.

(** In a larger store the instances that were there bind the domains
    they bound. *)
Lemma instance_domain_weaken h h' insts d :
  h ⊆ h' -> instances_ok h insts ->
  instance_domain h' insts d <-> instance_domain h insts d.
Proof.
  intros Hsub Hok. unfold instances_ok in Hok. rewrite Forall_forall in Hok.
  split.
  - intros (inst & of_ & n & items & x & k & ni & Hinst & Ho & Hx & Hcr).
    destruct (Hok inst Hinst) as (of0 & n0 & items0 & Ho0 & Hitems).
    rewrite (lookup_weaken _ _ _ _ Ho0 Hsub) in Ho. simplify_eq.
    rewrite Forall_forall in Hitems. destruct (Hitems x Hx) as [ox Hox].
    rewrite (lookup_weaken _ _ _ _ Hox Hsub) in Hcr. simplify_eq.
    exists inst, of_, n, items, x, k, ni. eauto.
  - intros (inst & of_ & n & items & x & k & ni & Hinst & Ho & Hx & Hcr).
    exists inst, of_, n, items, x, k, ni.
    split; [exact Hinst|]. split; [exact (lookup_weaken _ _ _ _ Ho Hsub)|].
    split; [exact Hx|exact (lookup_weaken _ _ _ _ Hcr Hsub)].
Qed.

Lemma memory_domain_weaken h h' mems d :
  h ⊆ h' -> memories_ok h mems ->
  memory_domain h' mems d <-> memory_domain h mems d.
Proof.
  intros Hsub Hok. unfold memories_ok in Hok. rewrite Forall_forall in Hok.
  split.
  - intros (mem & w & dp & ports & init & port & p &
            Hmem & Ho & Hport & Hp & Hd).
    destruct (Hok mem Hmem) as (w0 & dp0 & ports0 & init0 & Ho0 & Hports).
    rewrite (lookup_weaken _ _ _ _ Ho0 Hsub) in Ho. simplify_eq.
    rewrite Forall_forall in Hports. destruct (Hports port Hport) as [p0 Hp0].
    rewrite (lookup_weaken _ _ _ _ Hp0 Hsub) in Hp. simplify_eq.
    exists mem, w, dp, ports, init, port, p. eauto.
  - intros (mem & w & dp & ports & init & port & p &
            Hmem & Ho & Hport & Hp & Hd).
    exists mem, w, dp, ports, init, port, p.
    split; [exact Hmem|]. split; [exact (lookup_weaken _ _ _ _ Ho Hsub)|].
    split; [exact Hport|].
    split; [exact (lookup_weaken _ _ _ _ Hp Hsub)|exact Hd].
Qed.

Lemma instance_domain_app h i1 i2 d :
  instance_domain h (i1 ++ i2) d <->
  instance_domain h i1 d \/ instance_domain h i2 d.
Proof.
  unfold instance_domain. split.
  - intros (inst & of_ & n & items & x & k & ni & Hinst & H).
    apply elem_of_app in Hinst as [Hinst|Hinst]; [left|right];
      exists inst, of_, n, items, x, k, ni; eauto.
  - intros [(inst & of_ & n & items & x & k & ni & Hinst & H)|
            (inst & of_ & n & items & x & k & ni & Hinst & H)];
      exists inst, of_, n, items, x, k, ni;
      (split; [apply elem_of_app; eauto|exact H]).
Qed.

Lemma memory_domain_app h me1 me2 d :
  memory_domain h (me1 ++ me2) d <->
  memory_domain h me1 d \/ memory_domain h me2 d.
Proof.
  unfold memory_domain. split.
  - intros (mem & w & dp & ports & init & port & p & Hmem & H).
    apply elem_of_app in Hmem as [Hmem|Hmem]; [left|right];
      exists mem, w, dp, ports, init, port, p; eauto.
  - intros [(mem & w & dp & ports & init & port & p & Hmem & H)|
            (mem & w & dp & ports & init & port & p & Hmem & H)];
      exists mem, w, dp, ports, init, port, p;
      (split; [apply elem_of_app; eauto|exact H]).
Qed.

(** X19.  The clock domains of [f1 + f2] are those of [f1] together with
    those of [f2]. *)
Theorem get_clock_domains_add h self other f1 f2
    c1 s1 i1 me1 sm1 c2 s2 i2 me2 sm2 :
  h !! self = Some (OFragment f1) -> Fragment_holds h f1 c1 s1 i1 me1 sm1 ->
  instances_ok h i1 -> memories_ok h me1 ->
  h !! other = Some (OFragment f2) -> Fragment_holds h f2 c2 s2 i2 me2 sm2 ->
  instances_ok h i2 -> memories_ok h me2 ->
  exists r h' d1 d2,
    Fragment_add self other h = (Ok r, h') /\
    get_clock_domains self h = (Ok d1, h) /\
    get_clock_domains other h = (Ok d2, h) /\
    get_clock_domains r h' = (Ok (d1 ∪ d2), h').
Proof.
  intros Hself H1 Hi1 Hm1 Hother H2 Hi2 Hm2.
  destruct (Fragment_add_run h self other f1 f2 _ _ _ _ _ _ _ _ _ _
              Hself H1 Hother H2)
    as (r & fr & s & h' & Hrun & Hsub & Hr & Hs & Hh & Hsl & _).
  assert (Hd : forall f c s0 i me sm,
             Fragment_holds h f c s0 i me sm ->
             exists fac, h !! sync f = Some (ODict fac s0)).
  { intros f c s0 i me sm [_ Hs0 _ _ _ _]. unfold dict_at in Hs0.
    destruct (h !! sync f) as [[]|]; simplify_eq. eauto. }
  destruct (Hd _ _ _ _ _ _ H1) as [fac1 Hs1].
  destruct (Hd _ _ _ _ _ _ H2) as [fac2 Hs2].
  destruct (get_clock_domains_run h self f1 fac1 s1 i1 me1 Hself Hs1
              ltac:(apply list_at_Some, H1) Hi1
              ltac:(apply list_at_Some, H1) Hm1) as (d1 & Hd1 & Hin1).
  destruct (get_clock_domains_run h other f2 fac2 s2 i2 me2 Hother Hs2
              ltac:(apply list_at_Some, H2) Hi2
              ltac:(apply list_at_Some, H2) Hm2) as (d2 & Hd2 & Hin2).
  assert (Hi' : instances_ok h' (i1 ++ i2)).
  { apply Forall_app. split; eapply instances_ok_weaken; eassumption. }
  assert (Hm' : memories_ok h' (me1 ++ me2)).
  { apply Forall_app. split; eapply memories_ok_weaken; eassumption. }
  destruct (get_clock_domains_run h' r fr true s (i1 ++ i2) (me1 ++ me2)
              Hr Hs ltac:(apply list_at_Some, Hh) Hi'
              ltac:(apply list_at_Some, Hh) Hm') as (d3 & Hd3 & Hin3).
  exists r, h', d1, d2.
  split; [exact Hrun|]. split; [exact Hd1|]. split; [exact Hd2|].
  rewrite Hd3. f_equal. f_equal.
  assert (Hdom : dom s = dom s1 ∪ dom s2).
  { rewrite <- (dom_sync_lists h' s) by apply Hh.
    rewrite Hsl, dom_concat_sync.
    rewrite !dom_sync_lists by (apply H1 || apply H2). reflexivity. }
  apply set_eq. intros d.
  rewrite elem_of_union, Hin1, Hin2, Hin3, Hdom, elem_of_union.
  rewrite instance_domain_app, memory_domain_app.
  rewrite !(instance_domain_weaken h h') by assumption.
  rewrite !(memory_domain_weaken h h') by assumption.
  tauto.
Qed.

End ClockDomainsMerge.

(** ** Renaming, as the code does it *)

Section Renaming.

Implicit Types (h : heap) (x c : loc) (o : obj) (xs cs S : list loc).

(** A loop whose body replaces the object at [x] by [upd] of it. *)
Lemma for_each_update (body : loc -> M unit) (upd : obj -> obj)
    (good : obj -> Prop) :
  (forall h x o, h !! x = Some o -> good o ->
     body x h = (Ok tt, <[x := upd o]> h)) ->
  (forall o, good o -> good (upd o)) ->
  (forall o, upd (upd o) = upd o) ->
  forall xs h,
    Forall (fun x => exists o, h !! x = Some o /\ good o) xs ->
    exists h',
      for_each xs body h = (Ok tt, h') /\
      forall x, h' !! x = if decide (x ∈ xs) then upd <$> h !! x else h !! x.
Proof.
  intros Hbody Hgood Hidem. induction xs as [|x0 xs IH]; intros h Hall.
  - exists h. split; [reflexivity|]. intros x.
    rewrite decide_False by apply not_elem_of_nil. reflexivity.
  - apply Forall_cons in Hall as [(o0 & Hx0 & Hg0) Hall].
    set (h1 := <[x0 := upd o0]> h).
    destruct (IH h1) as (h' & Hrun & Hh').
    { eapply Forall_impl; [exact Hall|]. intros x (o & Hx & Hg).
      destruct (decide (x = x0)) as [->|Hne].
      - exists (upd o0). unfold h1. rewrite lookup_insert_eq.
        split; [reflexivity|]. apply Hgood, Hg0.
      - exists o. unfold h1. rewrite lookup_insert_ne by congruence.
        split; assumption. }
    exists h'. split.
    + simpl. rewrite (bind_Ok _ _ _ _ _ (Hbody h x0 o0 Hx0 Hg0)). exact Hrun.
    + intros x. rewrite Hh'.
      destruct (decide (x = x0)) as [->|Hne].
      * unfold h1. rewrite lookup_insert_eq, Hx0.
        rewrite (decide_True (P := x0 ∈ x0 :: xs)) by left.
        destruct (decide (x0 ∈ xs)); simpl; rewrite ?Hidem; reflexivity.
      * unfold h1. rewrite lookup_insert_ne by congruence.
        destruct (decide (x ∈ xs)) as [Hin|Hnin].
        -- rewrite decide_True by (right; exact Hin). reflexivity.
        -- rewrite decide_False; [reflexivity|].
           intros Hin. apply elem_of_cons in Hin as [?|?]; contradiction.
Qed.

Lemma children_cons view h c cs :
  children view h (c :: cs) =
    default [] (h !! c ≫= view) ++ children view h cs.
Proof. reflexivity. Qed.

Lemma children_ext view h h' cs :
  (forall c, h' !! c ≫= view = h !! c ≫= view) ->
  children view h' cs = children view h cs.
Proof.
  intros Hext. unfold children. f_equal. apply map_ext.
  intros c. rewrite Hext. reflexivity.
Qed.

(** The nested loops: for every container, the loop over what it holds. *)
Lemma for_each_children (get : loc -> M (list loc))
    (view : obj -> option (list loc)) (body : loc -> M unit)
    (upd : obj -> obj) (good : obj -> Prop) :
  (forall h c o xs, h !! c = Some o -> view o = Some xs ->
     get c h = (Ok xs, h)) ->
  (forall h x o, h !! x = Some o -> good o ->
     body x h = (Ok tt, <[x := upd o]> h)) ->
  (forall o, good o -> good (upd o)) ->
  (forall o, upd (upd o) = upd o) ->
  (forall o, view (upd o) = view o) ->
  forall h0 cs h S,
    (forall x, h !! x = if decide (x ∈ S) then upd <$> h0 !! x else h0 !! x) ->
    Forall (fun c => exists o xs,
              h0 !! c = Some o /\ view o = Some xs /\
              Forall (fun x => exists o', h0 !! x = Some o' /\ good o') xs)
           cs ->
    exists h',
      for_each cs (fun c => xs ← get c; for_each xs body) h = (Ok tt, h') /\
      forall x, h' !! x =
        if decide (x ∈ S ++ children view h0 cs) then upd <$> h0 !! x
        else h0 !! x.
Proof.
  intros Hget Hbody Hgood Hidem Hview h0.
  induction cs as [|c cs IH]; intros h S Hinv Hall.
  - exists h. split; [reflexivity|]. intros x.
    unfold children. simpl. rewrite app_nil_r. apply Hinv.
  - apply Forall_cons in Hall as [(o & xs & Hc & Hv & Hxs) Hall].
    assert (Hc' : exists o', h !! c = Some o' /\ view o' = Some xs).
    { rewrite Hinv, Hc. destruct (decide (c ∈ S)); simpl; eauto.
      exists (upd o). rewrite Hview. split; [reflexivity|exact Hv]. }
    destruct Hc' as (o' & Hc' & Hv').
    destruct (for_each_update body upd good Hbody Hgood Hidem xs h)
      as (h1 & Hrun1 & Hh1).
    { eapply Forall_impl; [exact Hxs|]. intros x (ox & Hx & Hg).
      rewrite Hinv, Hx. destruct (decide (x ∈ S)); simpl; eauto. }
    destruct (IH h1 (S ++ xs)) as (h' & Hrun & Hh'); [|exact Hall|].
    { intros x. rewrite Hh1, Hinv.
      destruct (decide (x ∈ xs)) as [Hin|Hnin];
        destruct (decide (x ∈ S)) as [HS|HnS].
      - rewrite decide_True by (apply elem_of_app; eauto).
        destruct (h0 !! x); simpl; rewrite ?Hidem; reflexivity.
      - rewrite decide_True by (apply elem_of_app; eauto). reflexivity.
      - rewrite decide_True by (apply elem_of_app; eauto). reflexivity.
      - rewrite decide_False; [reflexivity|].
        intros Hin. apply elem_of_app in Hin as [?|?]; contradiction. }
    exists h'. split.
    + assert (Hb : (xs ← get c; for_each xs body) h = (Ok tt, h1)).
      { rewrite (bind_Ok _ _ _ _ _ (Hget h c o' xs Hc' Hv')). exact Hrun1. }
      simpl. rewrite (bind_Ok _ _ _ _ _ Hb). exact Hrun.
    + intros x. rewrite Hh', children_cons, Hc. simpl. rewrite Hv. simpl.
      rewrite <- app_assoc. reflexivity.
Qed.

Lemma rename_cr_run old new h x o :
  h !! x = Some o -> True ->
  rename_cr old new x h = (Ok tt, <[x := renamed_cr old new o]> h).
Proof.
  intros Hx _. unfold rename_cr.
  rewrite (bind_Ok _ _ _ _ _ (load_Some _ _ _ Hx)).
  destruct o; try (simpl; rewrite insert_id by assumption; reflexivity).
  simpl. destruct (decide (domain = old)); [reflexivity|].
  rewrite insert_id by assumption. reflexivity.
Qed.

Lemma rename_port_run old new h x o :
  h !! x = Some o -> is_port o ->
  rename_port old new x h = (Ok tt, <[x := renamed_port old new o]> h).
Proof.
  intros Hx Hp. unfold rename_port.
  rewrite (bind_Ok _ _ _ _ _ (load_Some _ _ _ Hx)).
  destruct o; try contradiction.
  simpl. destruct (decide (clock_domain p = old)); [reflexivity|].
  destruct p; simpl. rewrite insert_id by assumption. reflexivity.
Qed.

Lemma renamed_cr_idem old new o :
  renamed_cr old new (renamed_cr old new o) = renamed_cr old new o.
Proof.
  destruct o; try reflexivity. simpl.
  destruct (decide (domain = old)) as [->|]; [|rewrite decide_False by done;
    reflexivity].
  destruct (decide (new = old)); reflexivity.
Qed.

Lemma renamed_port_idem old new o :
  renamed_port old new (renamed_port old new o) = renamed_port old new o.
Proof.
  destruct o as [| | | | | |p| | |]; try reflexivity.
  destruct p as [a dr w dw ar r wg md cd]. simpl.
  destruct (decide (cd = old)) as [->|Hne].
  - destruct (decide (new = old)); reflexivity.
  - rewrite decide_False by done. reflexivity.
Qed.

Lemma renamed_port_is_port old new o :
  is_port o -> is_port (renamed_port old new o).
Proof. destruct o; simpl; tauto. Qed.

(** X20.  When [sync] is a plain dict without a key spelled ["old"], the
    call raises [KeyError] before it changes anything, whatever [old] and
    [new] are, also when [old] is a key of [sync]. *)
Theorem rename_clock_domain_no_old_key h self f m old new :
  h !! self = Some (OFragment f) ->
  h !! sync f = Some (ODict false m) ->
  m !! "old" = None ->
  rename_clock_domain self old new h = (Raise KeyError, h).
Proof.
  intros Hself Hsync Hold. unfold rename_clock_domain.
  rewrite (bind_Ok _ _ _ _ _ (get_fragment_Ok _ _ _ Hself)).
  apply bind_Raise. unfold dict_getitem.
  rewrite (bind_Ok _ _ _ _ _ (get_dict_Ok _ _ _ _ Hsync)).
  rewrite Hold. reflexivity.
Qed.

(** X21.  When [sync] has a key spelled ["old"], the call succeeds: the
    list of ["old"] moves to the key ["new"]; every clock or reset binding
    among the items of the instances, and every port of the memories,
    whose domain is the argument [old] gets the argument [new]; bindings
    and ports of other domains, items that are no bindings, and every
    other object stay as they are. *)
Theorem rename_clock_domain_old_key h self f fac m v insts mems old new :
  h !! self = Some (OFragment f) ->
  h !! sync f = Some (ODict fac m) -> m !! "old" = Some v ->
  h !! instances f = Some (OList insts) -> instances_ok h insts ->
  h !! memories f = Some (OList mems) -> memories_ok h mems ->
  exists h',
    rename_clock_domain self old new h = (Ok tt, h') /\
    h' !! sync f = Some (ODict fac (delete "old" (<[ "new" := v ]> m))) /\
    forall x, x ≠ sync f ->
      h' !! x =
        rename_effect old new (children items_view h insts)
          (children ports_view h mems) x <$> h !! x.
Proof.
  intros Hself Hsync Hold Hinsts Hiok Hmems Hmok.
  set (sf := sync f) in *.
  set (m' := delete "old" (<[ "new" := v ]> m)).
  set (h1 := <[sf := ODict fac m']> h).
  assert (Hne1 : forall x o, h !! x = Some o ->
                   (forall fac0 m0, o ≠ ODict fac0 m0) -> h1 !! x = Some o).
  { intros x o Hx Ho. unfold h1. rewrite lookup_insert_ne; [exact Hx|].
    intros <-. rewrite Hsync in Hx. simplify_eq. exact (Ho _ _ eq_refl). }
  assert (Hall1 : forall x o, h !! x = Some o -> exists o', h1 !! x = Some o').
  { intros x o Hx. unfold h1. destruct (decide (sf = x)) as [<-|Hne].
    - rewrite lookup_insert_eq. eauto.
    - rewrite lookup_insert_ne by assumption. eauto. }
  (* the loop over the instances *)
  assert (Gi : forall h0 c o xs, h0 !! c = Some o -> items_view o = Some xs ->
                 get_items c h0 = (Ok xs, h0)).
  { intros h0 c o xs Hc Hv. destruct o; simpl in Hv; simplify_eq.
    eapply get_items_Ok; eassumption. }
  assert (Vi : forall o, items_view (renamed_cr old new o) = items_view o)
    by (intros []; reflexivity).
  destruct (for_each_children get_items items_view (rename_cr old new)
              (renamed_cr old new) (fun _ => True) Gi
              (rename_cr_run old new) (fun _ _ => I)
              (renamed_cr_idem old new) Vi h1 insts h1 [])
    as (h2 & Hrun2 & Hh2).
  { intros x. rewrite decide_False by apply not_elem_of_nil. reflexivity. }
  { unfold instances_ok in Hiok. eapply Forall_impl; [exact Hiok|].
    intros inst (of_ & n & items & Ho & Hitems).
    exists (OInstance of_ n items), items.
    split; [apply Hne1; [exact Ho|discriminate]|]. split; [reflexivity|].
    eapply Forall_impl; [exact Hitems|]. intros x [ox Hx].
    destruct (Hall1 x ox Hx) as [o' Ho']. eauto. }
  assert (HT : children items_view h1 insts = children items_view h insts).
  { apply children_ext. intros c. unfold h1.
    destruct (decide (sf = c)) as [<-|Hne].
    - rewrite lookup_insert_eq, Hsync. reflexivity.
    - rewrite lookup_insert_ne by assumption. reflexivity. }
  simpl in Hh2. rewrite HT in Hh2.
  set (T := children items_view h insts) in *.
  (* the loop over the memories *)
  assert (Hview2 : forall c (view : obj -> option (list loc)),
            (forall o, view (renamed_cr old new o) = view o) ->
            (forall fac0 m0, view (ODict fac0 m0) = None) ->
            h2 !! c ≫= view = h !! c ≫= view).
  { intros c view Hv Hd. rewrite Hh2. unfold h1.
    destruct (decide (sf = c)) as [<-|Hne].
    - rewrite lookup_insert_eq, Hsync.
      destruct (decide (sf ∈ T)); simpl; rewrite ?Hd; reflexivity.
    - rewrite lookup_insert_ne by assumption.
      destruct (decide (c ∈ T)); [|reflexivity].
      destruct (h !! c); simpl; rewrite ?Hv; reflexivity. }
  assert (Hkeep2 : forall x o, h !! x = Some o ->
            (forall fac0 m0, o ≠ ODict fac0 m0) ->
            renamed_cr old new o = o -> h2 !! x = Some o).
  { intros x o Hx Ho Hr. rewrite Hh2, (Hne1 x o Hx Ho).
    destruct (decide (x ∈ T)); simpl; rewrite ?Hr; reflexivity. }
  assert (Gp : forall h0 c o xs, h0 !! c = Some o -> ports_view o = Some xs ->
                 get_ports c h0 = (Ok xs, h0)).
  { intros h0 c o xs Hc Hv. destruct o; simpl in Hv; simplify_eq.
    eapply get_ports_Ok; eassumption. }
  assert (Vp : forall o, ports_view (renamed_port old new o) = ports_view o)
    by (intros []; reflexivity).
  destruct (for_each_children get_ports ports_view (rename_port old new)
              (renamed_port old new) is_port Gp
              (rename_port_run old new) (renamed_port_is_port old new)
              (renamed_port_idem old new) Vp h2 mems h2 [])
    as (h3 & Hrun3 & Hh3).
  { intros x. rewrite decide_False by apply not_elem_of_nil. reflexivity. }
  { unfold memories_ok in Hmok. eapply Forall_impl; [exact Hmok|].
    intros mem (w & dp & ports & init & Ho & Hports).
    exists (OMemory w dp ports init), ports.
    split; [apply Hkeep2; [exact Ho|discriminate|reflexivity]|].
    split; [reflexivity|].
    eapply Forall_impl; [exact Hports|]. intros x [p Hx].
    exists (OMemoryPort p).
    split; [apply Hkeep2; [exact Hx|discriminate|reflexivity]|exact I]. }
  assert (HP : children ports_view h2 mems = children ports_view h mems).
  { apply children_ext. intros c.
    apply Hview2; [intros []; reflexivity|reflexivity]. }
  simpl in Hh3. rewrite HP in Hh3.
  set (P := children ports_view h mems) in *.
  exists h3. split; [|split].
  - unfold rename_clock_domain.
    rewrite (bind_Ok _ _ _ _ _ (get_fragment_Ok _ _ _ Hself)).
    fold sf.
    assert (R1 : dict_getitem sf "old" h = (Ok v, h)).
    { unfold dict_getitem.
      rewrite (bind_Ok _ _ _ _ _ (get_dict_Ok _ _ _ _ Hsync)).
      rewrite Hold. reflexivity. }
    assert (R2 : dict_setitem sf "new" v h =
                 (Ok tt, <[sf := ODict fac (<[ "new" := v ]> m)]> h)).
    { unfold dict_setitem.
      rewrite (bind_Ok _ _ _ _ _ (get_dict_Ok _ _ _ _ Hsync)).
      apply store_run. }
    assert (R3 : dict_delitem sf "old"
                   (<[sf := ODict fac (<[ "new" := v ]> m)]> h) =
                 (Ok tt, h1)).
    { unfold dict_delitem.
      assert (Hd : <[sf := ODict fac (<[ "new" := v ]> m)]> h !! sf =
                   Some (ODict fac (<[ "new" := v ]> m)))
        by apply lookup_insert_eq.
      rewrite (bind_Ok _ _ _ _ _ (get_dict_Ok _ _ _ _ Hd)).
      rewrite lookup_insert_ne by discriminate. rewrite Hold.
      rewrite store_run, insert_insert_eq. reflexivity. }
    rewrite (bind_Ok _ _ _ _ _ R1), (bind_Ok _ _ _ _ _ R2).
    rewrite (bind_Ok _ _ _ _ _ R3).
    rewrite (bind_Ok _ _ _ _ _ (get_list_Ok h1 _ insts
               ltac:(apply list_at_Some, Hne1; [exact Hinsts|discriminate]))).
    rewrite (bind_Ok _ _ _ _ _ Hrun2).
    rewrite (bind_Ok _ _ _ _ _ (get_list_Ok h2 _ mems
               ltac:(apply list_at_Some, Hkeep2;
                     [exact Hmems|discriminate|reflexivity]))).
    exact Hrun3.
  - rewrite Hh3, Hh2. unfold h1. rewrite lookup_insert_eq.
    destruct (decide (sf ∈ P)), (decide (sf ∈ T)); reflexivity.
  - intros x Hx. rewrite Hh3, Hh2. unfold h1.
    rewrite lookup_insert_ne by congruence.
    unfold rename_effect.
    destruct (decide (x ∈ P)), (decide (x ∈ T)), (h !! x); reflexivity.
Qed.

End Renaming.

(** * The further properties at concrete inputs *)

Lemma log2_int_pow2_witness :
  0 <= 3 /\ (Z.to_nat 3 <= 3)%nat /\ log2_int 3 (2 ^ 3) = Some (Ok 3).
Proof.
  split; [lia|]. split; [lia|]. apply (log2_int_pow2 3 3); lia.
Defined.

Lemma log2_int_only_pow2_witness :
  (forall r, 0 <= r -> 7 ≠ 2 ^ r) /\
  (Z.to_nat (Z.log2_up 7) <= 3)%nat /\
  log2_int 3 7 = Some (Raise ValueError).
Proof.
  assert (H : forall r, 0 <= r -> 7 ≠ 2 ^ r).
  { intros r Hr Heq.
    destruct (Z.le_gt_cases r 2) as [Hle|Hgt].
    - assert (2 ^ r <= 2 ^ 2) by (apply Z.pow_le_mono_r; lia). lia.
    - assert (2 ^ 3 <= 2 ^ r) by (apply Z.pow_le_mono_r; lia). lia. }
  assert (Hf : (Z.to_nat (Z.log2_up 7) <= 3)%nat) by (vm_compute; lia).
  split; [exact H|]. split; [exact Hf|].
  exact (proj2 (log2_int_only_pow2 7 3) H Hf).
Defined.

Lemma bits_for_sign_and_constant_witness :
  0 < 3 /\
  bits_for Z.log2_up (@PyInt unit (- 3)) =
    (w ← bits_for Z.log2_up (@PyInt unit 3); Ok (w + 1)).
Proof.
  split; [lia|].
  apply (bits_for_sign_and_constant Z.log2_up 3 0 (mkBV 8 false)). lia.
Defined.

Lemma getitem_without_len_witness :
  is_proxy (Cat [byte_const]) = false /\
  len (Cat [byte_const]) = Raise TypeError /\
  getitem (Cat [byte_const]) (ISlice (mkSlice (Some 0) (Some 4) None)) =
    Raise TypeError /\
  getitem (Cat [byte_const]) (IInt 9) = Ok (_Slice (Cat [byte_const]) 9 10).
Proof.
  split; [reflexivity|]. split; [reflexivity|].
  apply (getitem_without_len (Cat [byte_const])
           (mkSlice (Some 0) (Some 4) None) 9); reflexivity.
Defined.

(** [get_io("d")] passes the parameter, the clock binding and the port
    ["q"], and stops at the first port ["d"]. *)
Lemma Instance_get_io_first_witness :
  Forall (fun y => exists o, cell !! y = Some o /\ not_io_named "d" o)
         [1%positive; 5%positive; 2%positive] /\
  cell !! 3%positive = Some (OIO Input "d" 22%positive) /\
  exists inst h',
    (inst ← Instance_init "ff"
              ([1%positive; 5%positive; 2%positive] ++
               3%positive :: [4%positive]) "";
     get_io inst "d") cell = (Ok (Some 22%positive), h') /\
    cell ⊆ h' /\ cell !! inst = None /\
    h' !! inst =
      Some (OInstance "ff" "ff"
              ([1%positive; 5%positive; 2%positive] ++
               3%positive :: [4%positive])).
Proof.
  assert (H : Forall (fun y => exists o, cell !! y = Some o /\
                                         not_io_named "d" o)
                     [1%positive; 5%positive; 2%positive]).
  { repeat constructor.
    - eexists. split; [reflexivity|exact I].
    - eexists. split; [reflexivity|exact I].
    - eexists. split; [reflexivity|]. simpl. discriminate. }
  split; [exact H|]. split; [reflexivity|].
  exact (Instance_get_io_first cell "ff" "" _ 3%positive [4%positive]
           Input "d" 22%positive H eq_refl).
Defined.

Lemma get_io_absent_witness :
  cell !! 6%positive = Some (OInstance "ff" "ff" [1%positive; 5%positive]) /\
  Forall (fun y => exists o, cell !! y = Some o /\ not_io_named "d" o)
         [1%positive; 5%positive] /\
  get_io 6%positive "d" cell = (Ok None, cell).
Proof.
  assert (H : Forall (fun y => exists o, cell !! y = Some o /\
                                         not_io_named "d" o)
                     [1%positive; 5%positive]).
  { repeat constructor; eexists; (split; [reflexivity|exact I]). }
  split; [reflexivity|]. split; [exact H|].
  exact (get_io_absent cell 6%positive "ff" "ff" _ "d" eq_refl H).
Defined.

Lemma Fragment_init_list_sync_witness :
  design !! 3%positive = Some (OList [21%positive]) /\
  exists r d h',
    Fragment_init (Some 1%positive) (Some 3%positive) (Some 4%positive)
      (Some 5%positive) (Some 6%positive) design = (Ok r, h') /\
    h' !! d = Some (ODict false {[ "sys" := 3%positive ]}) /\
    sync_of h' r = Some {[ "sys" := [21%positive] ]}.
Proof.
  split; [reflexivity|].
  destruct (Fragment_init_list_sync design 1%positive 3%positive 4%positive
              5%positive 6%positive [21%positive] eq_refl)
    as (r & d & h' & Hrun & _ & _ & Hd & Hs & _).
  exists r, d, h'. split; [exact Hrun|]. split; [exact Hd|exact Hs].
Defined.

Lemma design_holds :
  Fragment_holds design (mkFragment 1 2 4 5 6)
    [20%positive] {[ "sys" := 3%positive ]} [7%positive] [] [].
Proof.
  split; try reflexivity.
  apply map_Forall_singleton. eexists. reflexivity.
Qed.

Lemma design_holds2 :
  Fragment_holds design (mkFragment 5 10 5 5 6)
    [] (<[ "sys" := 11%positive ]> {[ "pix" := 12%positive ]}) [] [] [].
Proof.
  split; try reflexivity.
  apply map_Forall_insert_2; [eexists; reflexivity|].
  apply map_Forall_singleton. eexists. reflexivity.
Qed.

Lemma design_instances_ok : instances_ok design [7%positive].
Proof.
  constructor; [|constructor].
  exists "foo", "foo", [8%positive]. split; [reflexivity|].
  constructor; [|constructor]. eexists. reflexivity.
Qed.

Lemma Fragment_add_empty_witness :
  design !! design_fragment = Some (OFragment (mkFragment 1 2 4 5 6)) /\
  exists r fr s' h',
    (e ← Fragment_init None None None None None;
     Fragment_add design_fragment e) design = (Ok r, h') /\
    h' !! r = Some (OFragment fr) /\
    Fragment_holds h' fr [20%positive] s' [7%positive] [] [] /\
    sync_lists h' s' = sync_lists design {[ "sys" := 3%positive ]}.
Proof.
  split; [reflexivity|].
  exact (proj1 (Fragment_add_empty design design_fragment _ _ _ _ _ _
                  eq_refl design_holds)).
Defined.

Lemma Fragment_add_assoc_witness :
  exists r fr s h' r' fr' s' h'',
    (a ← Fragment_add design_fragment design_fragment2;
     Fragment_add a design_fragment) design = (Ok r, h') /\
    (b ← Fragment_add design_fragment2 design_fragment;
     Fragment_add design_fragment b) design = (Ok r', h'') /\
    h' !! r = Some (OFragment fr) /\
    h'' !! r' = Some (OFragment fr') /\
    Fragment_holds h' fr ([20%positive] ++ [] ++ [20%positive]) s
      ([7%positive] ++ [] ++ [7%positive]) ([] ++ [] ++ []) ([] ++ [] ++ []) /\
    Fragment_holds h'' fr' ([20%positive] ++ [] ++ [20%positive]) s'
      ([7%positive] ++ [] ++ [7%positive]) ([] ++ [] ++ []) ([] ++ [] ++ []) /\
    sync_lists h' s = sync_lists h'' s'.
Proof.
  exact (Fragment_add_assoc design design_fragment design_fragment2
           design_fragment _ _ _ _ _ _ _ _ _ _ _ _ _ _ _ _ _ _
           eq_refl design_holds eq_refl design_holds2 eq_refl design_holds).
Defined.

Lemma get_clock_domains_add_witness :
  instances_ok design [7%positive] /\ memories_ok design [] /\
  instances_ok design [] /\
  exists r h' d1 d2,
    Fragment_add design_fragment design_fragment2 design = (Ok r, h') /\
    get_clock_domains design_fragment design = (Ok d1, design) /\
    get_clock_domains design_fragment2 design = (Ok d2, design) /\
    get_clock_domains r h' = (Ok (d1 ∪ d2), h').
Proof.
  split; [exact design_instances_ok|]. split; [constructor|].
  split; [constructor|].
  exact (get_clock_domains_add design design_fragment design_fragment2
           _ _ _ _ _ _ _ _ _ _ _ _
           eq_refl design_holds design_instances_ok (Forall_nil_2 _)
           eq_refl design_holds2 (Forall_nil_2 _) (Forall_nil_2 _)).
Defined.

Lemma rename_clock_domain_no_old_key_witness :
  design !! design_fragment = Some (OFragment (mkFragment 1 2 4 5 6)) /\
  design !! 2%positive = Some (ODict false {[ "sys" := 3%positive ]}) /\
  ({[ "sys" := 3%positive ]} : gmap string loc) !! "old" = None /\
  rename_clock_domain design_fragment "sys" "pix" design =
    (Raise KeyError, design).
Proof.
  split; [reflexivity|]. split; [reflexivity|]. split; [reflexivity|].
  exact (rename_clock_domain_no_old_key design design_fragment
           (mkFragment 1 2 4 5 6) {[ "sys" := 3%positive ]} "sys" "pix"
           eq_refl eq_refl eq_refl).
Defined.

Lemma legacy_instances_ok : instances_ok legacy [7%positive].
Proof.
  constructor; [|constructor].
  exists "pll", "pll", [8%positive; 12%positive]. split; [reflexivity|].
  repeat constructor; eexists; reflexivity.
Qed.

Lemma legacy_memories_ok : memories_ok legacy [9%positive].
Proof.
  constructor; [|constructor].
  exists 8, 16, [10%positive], None. split; [reflexivity|].
  repeat constructor. eexists. reflexivity.
Qed.

(** On [legacy], renaming ["sys"] to ["pix"]. *)
Lemma rename_clock_domain_old_key_witness :
  instances_ok legacy [7%positive] /\ memories_ok legacy [9%positive] /\
  exists h',
    rename_clock_domain legacy_fragment "sys" "pix" legacy = (Ok tt, h') /\
    h' !! 2%positive =
      Some (ODict false (delete "old"
              (<[ "new" := 3%positive ]> {[ "old" := 3%positive ]}))) /\
    forall x, x ≠ 2%positive ->
      h' !! x =
        rename_effect "sys" "pix" (children items_view legacy [7%positive])
          (children ports_view legacy [9%positive]) x <$> legacy !! x.
Proof.
  split; [exact legacy_instances_ok|]. split; [exact legacy_memories_ok|].
  exact (rename_clock_domain_old_key legacy legacy_fragment
           (mkFragment 1 2 4 5 6) false {[ "old" := 3%positive ]} 3%positive
           [7%positive] [9%positive] "sys" "pix"
           eq_refl eq_refl eq_refl eq_refl legacy_instances_ok
           eq_refl legacy_memories_ok).
Defined.

(** The same call, evaluated: the binding on ["sys"] and the port are on
    ["pix"], the binding on ["por"] is as it was, and [sync] has the one
    key ["new"]. *)
Example rename_clock_domain_legacy :
  (let '(u, h') := rename_clock_domain legacy_fragment "sys" "pix" legacy in
   (u, h' !! 8%positive, h' !! 12%positive,
    clock_domain <$> (h' !! 10%positive ≫= fun o =>
                        match o with OMemoryPort p => Some p | _ => None end),
    sync_keys h' legacy_fragment)) =
  (Ok tt, Some (OCR ClockPort "clk" "pix"), Some (OCR ResetPort "rst" "por"),
   Some "pix", Some {[ "new" ]}).
Proof. vm_compute. reflexivity. Qed.
